(** * go-do: the pipeline engine of [do/do.go], embedded and verified

    The Go package [do] runs a list of stages one after the other, keeps a
    run-scoped variable store, tracks the files the stages hand back and
    releases them when the run ends.  This file embeds that engine
    ([Run], [SaveInVar], [Split], [Exec], [replaceVar], [doExecute],
    [ExcludeLines] and the file stages) as executable Rocq functions over
    an explicit model of the Go heap and of the operating system, and
    proves the properties of the engine's specification against them. *)

From stdpp Require Import gmap strings list fin_maps.
From Stdlib Require Import Ascii DecimalString.

#[local] Set Warnings "-register-all".

(** ** The parts of Go's [strings] and [path] packages the engine calls

    A Go [string] is a sequence of bytes; it is modelled by Rocq's
    [string].  Only the calls the program makes are embedded, each with
    the argument pattern the program uses. *)

Module GoStrings.

(** [strings.HasPrefix(s, prefix)]. *)
Definition HasPrefix (s pre : string) : bool := String.prefix pre s.

(** [strings.Contains(s, substr)]: [substr] starts at some offset of [s]. *)
Fixpoint Contains (s substr : string) : bool :=
  String.prefix substr s
  || match s with
     | EmptyString => false
     | String _ s' => Contains s' substr
     end.

(** The scan of [strings.Replace(s, old, new, -1)] for a non-empty [old]:
    leftmost occurrences, never overlapping.  [skip] counts the bytes of
    an occurrence that are still to be jumped over. *)
Fixpoint replaceFrom (old new : string) (skip : nat) (s : string) : string :=
  match s with
  | EmptyString => EmptyString
  | String c s' =>
      match skip with
      | S k => replaceFrom old new k s'
      | O =>
          if String.prefix old s
          then new +:+ replaceFrom old new (String.length old - 1) s'
          else String c (replaceFrom old new 0 s')
      end
  end.

(** With an empty [old], Go inserts [new] in front of every character
    and at the end. *)
Fixpoint insertAround (new s : string) : string :=
  match s with
  | EmptyString => new
  | String c s' => new +:+ String c (insertAround new s')
  end.

(** [strings.Replace(s, old, new, -1)]; the program always passes [-1]. *)
Definition Replace (s old new : string) : string :=
  match old with
  | EmptyString => insertAround new s
  | String _ _ => replaceFrom old new 0 s
  end.

(** The scan of [strings.Split(s, sep)] for a non-empty [sep]; [piece]
    is the part of the current element read so far. *)
Fixpoint splitFrom (sep : string) (skip : nat) (piece s : string) : list string :=
  match s with
  | EmptyString => [piece]
  | String c s' =>
      match skip with
      | S k => splitFrom sep k piece s'
      | O =>
          if String.prefix sep s
          then piece :: splitFrom sep (String.length sep - 1) EmptyString s'
          else splitFrom sep 0 (piece +:+ String c EmptyString) s'
      end
  end.

(** [explode]: one element per character (the model has one-byte
    characters; Go cuts after each UTF-8 sequence). *)
Fixpoint explode (s : string) : list string :=
  match s with
  | EmptyString => []
  | String c s' => String c EmptyString :: explode s'
  end.

(** [strings.Split(s, sep)]. *)
Definition Split (s sep : string) : list string :=
  match sep with
  | EmptyString => explode s
  | String _ _ => splitFrom sep 0 EmptyString s
  end.

(** [strings.Join(elems, sep)]. *)
Fixpoint Join (elems : list string) (sep : string) : string :=
  match elems with
  | [] => EmptyString
  | [e] => e
  | e :: rest => e +:+ sep +:+ Join rest sep
  end.

End GoStrings.

Module GoPath.

(** Characters of [s] after its last slash ([s] itself without one);
    [seen] is the candidate read since the last slash. *)
Fixpoint lastElement (seen s : string) : string :=
  match s with
  | EmptyString => seen
  | String c s' =>
      if Ascii.eqb c "/"%char then lastElement EmptyString s'
      else lastElement (seen +:+ String c EmptyString) s'
  end.

(** [s] without its trailing slashes. *)
Fixpoint stripSlashes (s : string) : string :=
  match s with
  | EmptyString => EmptyString
  | String c s' =>
      match stripSlashes s' with
      | EmptyString => if Ascii.eqb c "/"%char then EmptyString else String c EmptyString
      | rest => String c rest
      end
  end.

(** [path.Base(path)]. *)
Definition Base (p : string) : string :=
  match p with
  | EmptyString => "."
  | String _ _ =>
      match lastElement EmptyString (stripSlashes p) with
      | EmptyString => "/"
      | e => e
      end
  end.

End GoPath.

(** ** Values that flow between stages

    A stage receives and returns an [interface{}].  [value] lists the
    dynamic types the engine's type switches tell apart; every other Go
    value (a struct, a number, ...) is an [Other].  A Go [error] is
    modelled by its message, [nil] by [None].  An [*os.File] is a pointer:
    [ptr] is the identity of the file object, [Name] what [f.Name()]
    returns.  The nil [*os.File] that [os.Open] returns next to an error
    is modelled by [Nil]: the engine never inspects a value that comes
    with an error. *)

Definition error := string.

Record file := { ptr : nat; Name : string }.

Inductive value :=
| Nil
| Str (s : string)
| Bytes (b : string)
| File (f : file)
| save (Var : string) (Val : value)
| SplitResult (Left Right : value)
| interceptExec (Input : value) (Vars : gmap string value)
| Other (tag : nat).

(** ** The world a run acts on

    The file system and the part of the Go heap the stages share.  An
    operation fails when its own precondition fails (closing a file object
    twice, removing or opening a path that does not exist) or when the
    environment makes it fail: [faults] lists the operations that meet an
    I/O error.  [journal] records every operation attempted, in order. *)

Inductive syscall :=
| SysTempFile (path : string)
| SysWrite (f : nat)
| SysClose (f : nat)
| SysRemove (path : string)
| SysWriteFile (path : string)
| SysOpen (path : string)
| SysReadFile (path : string).

#[global] Instance syscall_eq_dec : EqDecision syscall.
Proof. solve_decision. Defined.

Record world := World {
  disk : gmap string string;    (* the files that exist: path ↦ contents *)
  opened : gset nat;            (* the file objects that are open *)
  nextFile : nat;               (* identity of the next file object *)
  closures : gmap nat string;   (* the [cmd] variable each Exec closure captured *)
  entropy : list nat;           (* the runtime's future random draws *)
  faults : list syscall;        (* operations the environment makes fail *)
  journal : list syscall;       (* operations attempted so far *)
  shown : list string;          (* what was written to the progress writer *)
}.

Definition withDisk (d : gmap string string) (w : world) : world :=
  World d (opened w) (nextFile w) (closures w) (entropy w) (faults w) (journal w) (shown w).
Definition withOpened (o : gset nat) (w : world) : world :=
  World (disk w) o (nextFile w) (closures w) (entropy w) (faults w) (journal w) (shown w).
Definition withNextFile (n : nat) (w : world) : world :=
  World (disk w) (opened w) n (closures w) (entropy w) (faults w) (journal w) (shown w).
Definition withClosures (c : gmap nat string) (w : world) : world :=
  World (disk w) (opened w) (nextFile w) c (entropy w) (faults w) (journal w) (shown w).
Definition withEntropy (e : list nat) (w : world) : world :=
  World (disk w) (opened w) (nextFile w) (closures w) e (faults w) (journal w) (shown w).
Definition withShown (s : list string) (w : world) : world :=
  World (disk w) (opened w) (nextFile w) (closures w) (entropy w) (faults w) (journal w) s.

(** Record the attempt of [c]. *)
Definition attempt (c : syscall) (w : world) : world :=
  World (disk w) (opened w) (nextFile w) (closures w) (entropy w) (faults w)
        (journal w ++ [c]) (shown w).

Definition ioError (c : syscall) (w : world) : bool := bool_decide (c ∈ faults w).

Module Os.

(** [f.Close()]. *)
Definition Close (f : file) (w : world) : option error * world :=
  let w := attempt (SysClose (ptr f)) w in
  if ioError (SysClose (ptr f)) w
  then (Some ("close " +:+ Name f +:+ ": input/output error"), w)
  else if bool_decide (ptr f ∈ opened w)
  then (None, withOpened (opened w ∖ {[ptr f]}) w)
  else (Some ("close " +:+ Name f +:+ ": file already closed"), w).

(** [f.Write(content)]; an open file grows by [content]. *)
Definition Write (f : file) (content : string) (w : world) : option error * world :=
  let w := attempt (SysWrite (ptr f)) w in
  if ioError (SysWrite (ptr f)) w
  then (Some ("write " +:+ Name f +:+ ": input/output error"), w)
  else if bool_decide (ptr f ∈ opened w)
  then (None, withDisk (alter (fun old => old +:+ content) (Name f) (disk w)) w)
  else (Some ("write " +:+ Name f +:+ ": file already closed"), w).

(** [os.Remove(name)]. *)
Definition Remove (name : string) (w : world) : option error * world :=
  let w := attempt (SysRemove name) w in
  if ioError (SysRemove name) w
  then (Some ("remove " +:+ name +:+ ": input/output error"), w)
  else match disk w !! name with
       | Some _ => (None, withDisk (delete name (disk w)) w)
       | None => (Some ("remove " +:+ name +:+ ": no such file or directory"), w)
       end.

(** The [O_CREATE] bit of the open flags (Linux). *)
Definition O_CREATE : Z := 64.

(** [os.OpenFile(name, flag, perm)]; of the flags only [O_CREATE] is
    modelled, [perm] has no effect the engine can see. *)
Definition OpenFile (name : string) (flag : Z) (w : world) : (value * option error) * world :=
  let w := attempt (SysOpen name) w in
  let handle := {| ptr := nextFile w; Name := name |} in
  let opening (w : world) :=
    withNextFile (S (nextFile w)) (withOpened (opened w ∪ {[nextFile w]}) w) in
  if ioError (SysOpen name) w
  then ((Nil, Some ("open " +:+ name +:+ ": input/output error")), w)
  else match disk w !! name with
       | Some _ => ((File handle, None), opening w)
       | None =>
           if Z.testbit flag 6
           then ((File handle, None), opening (withDisk (<[name := EmptyString]> (disk w)) w))
           else ((Nil, Some ("open " +:+ name +:+ ": no such file or directory")), w)
       end.

(** [os.Open(name)] is [OpenFile(name, O_RDONLY, 0)]. *)
Definition Open (name : string) (w : world) : (value * option error) * world :=
  OpenFile name 0 w.

End Os.

Module Ioutil.

(** The name [ioutil.TempFile] tries with the number [n]. *)
Definition tempName (pattern : string) (n : nat) : string :=
  "/tmp/" +:+ pattern +:+ NilZero.string_of_uint (Nat.to_uint n).

(** [TempFile] tries names until one does not exist yet. *)
Fixpoint unusedFrom (d : gmap string string) (pattern : string) (tries n : nat) : nat :=
  match tries with
  | O => n
  | S k =>
      match d !! tempName pattern n with
      | Some _ => unusedFrom d pattern k (S n)
      | None => n
      end
  end.

(** [ioutil.TempFile] with an empty [dir]: a new, empty, open file in the
    temporary directory whose base name starts with [pattern]. *)
Definition TempFile (pattern : string) (w : world) : (option file * option error) * world :=
  let name := tempName pattern (unusedFrom (disk w) pattern (size (disk w)) (nextFile w)) in
  let w := attempt (SysTempFile name) w in
  if ioError (SysTempFile name) w
  then ((None, Some ("open " +:+ name +:+ ": input/output error")), w)
  else ((Some {| ptr := nextFile w; Name := name |}, None),
        withNextFile (S (nextFile w))
          (withOpened (opened w ∪ {[nextFile w]})
             (withDisk (<[name := EmptyString]> (disk w)) w))).

(** [ioutil.WriteFile(filename, data, 0666)]. *)
Definition WriteFile (filename data : string) (w : world) : option error * world :=
  let w := attempt (SysWriteFile filename) w in
  if ioError (SysWriteFile filename) w
  then (Some ("open " +:+ filename +:+ ": input/output error"), w)
  else (None, withDisk (<[filename := data]> (disk w)) w).

(** [ioutil.ReadFile(filename)]. *)
Definition ReadFile (filename : string) (w : world) : (value * option error) * world :=
  let w := attempt (SysReadFile filename) w in
  if ioError (SysReadFile filename) w
  then ((Bytes EmptyString, Some ("read " +:+ filename +:+ ": input/output error")), w)
  else match disk w !! filename with
       | Some data => ((Bytes data, None), w)
       | None => ((Bytes EmptyString, Some ("open " +:+ filename +:+ ": no such file or directory")), w)
       end.

End Ioutil.

(** ** Ranging over a map

    Go leaves the order of [for k, v := range m] unspecified and the
    runtime randomises it.  The order of one loop is decided by one draw
    from [entropy]: [arrange n] lists the entries in the [n]-th order. *)

Fixpoint insertAt {A} (i : nat) (x : A) (l : list A) : list A :=
  match i, l with
  | S j, y :: l' => y :: insertAt j x l'
  | _, _ => x :: l
  end.

Fixpoint arrange {A} (n : nat) (l : list A) : list A :=
  match l with
  | [] => []
  | x :: l' => insertAt (n mod S (length l')) x (arrange (n / S (length l')) l')
  end.

Definition draw (w : world) : nat * world :=
  match entropy w with
  | [] => (0, w)
  | n :: rest => (n, withEntropy rest w)
  end.

Definition rangeMap (m : gmap string value) (w : world) : list (string * value) * world :=
  let (n, w) := draw w in (arrange n (map_to_list m), w).

(** ** Stages

    [progress] is the [io.Writer] of the run: [None] is Go's [nil];
    [Discard] swallows what it is given, [Console] keeps it ([shown]).
    A [StageFn] is a Go function value.  The engine asks the runtime for
    the function's name ([runtime.FuncForPC]), so a stage is modelled with
    its name: [Stage]. *)

Inductive writer := Discard | Console.

Definition StageFn : Type :=
  value -> option writer -> world -> (value * option error) * world.

Record Stage := { fnName : string; fn : StageFn }.

Definition temporaryFilePrefix : string := "godo-temporary-file".

Definition newline : string := String (ascii_of_nat 10) EmptyString.

(** [ReportProgress(progress, msg, args...)], with [msg] already
    formatted; the writer's own error is dropped, as in the source. *)
Definition ReportProgress (progress : option writer) (msg : string) (w : world) : world :=
  match progress with
  | Some Console => withShown (shown w ++ [newline +:+ msg +:+ newline]) w
  | Some Discard => w
  | None => w
  end.

(** [Insert(val)]. *)
Definition Insert (val : value) : Stage :=
  {| fnName := "github.com/paulbes/go-do/do.Insert.func1";
     fn := fun _ progress w =>
             ((val, None), ReportProgress progress "Inserting value into pipeline" w) |}.

Definition isLetter (c : ascii) : bool :=
  let n := nat_of_ascii c in
  (65 <=? n) && (n <=? 90) || (97 <=? n) && (n <=? 122).

Fixpoint allLetters (s : string) : bool :=
  match s with
  | EmptyString => true
  | String c s' => isLetter c && allLetters s'
  end.

(** [regexp.Match("^[a-zA-Z]+$", varName)]: one letter or more, nothing else. *)
Definition matchLetters (varName : string) : bool :=
  match varName with
  | EmptyString => false
  | String _ _ => allLetters varName
  end.

Definition invalidName : error :=
  "not a valid variable name, must match: [a-zA-Z] (excluding: content, file)".

(** [SaveInVar(varName)]. *)
Definition SaveInVar (varName : string) : Stage :=
  {| fnName := "github.com/paulbes/go-do/do.SaveInVar.func1";
     fn := fun input progress w =>
             let valid := matchLetters varName in
             if String.eqb varName "content" || String.eqb varName "file" || negb valid
             then ((Nil, Some invalidName), w)
             else ((save varName input, None), w) |}.

Definition notText : error := "provided input must be string or []byte".

(** [WriteFile(toFile)]. *)
Definition WriteFile (toFile : string) : Stage :=
  {| fnName := "github.com/paulbes/go-do/do.WriteFile.func1";
     fn := fun input progress w =>
             let write (content : string) :=
               let (err, w) := Ioutil.WriteFile toFile content w in
               match err with
               | Some _ => ((input, err), w)
               | None => Os.Open toFile w
               end in
             match input with
             | Str data => write data
             | Bytes data => write data
             | _ => ((Nil, Some notText), w)
             end |}.

(** [LoadFileHandler(name, flag, perm)]. *)
Definition LoadFileHandler (name : string) (flag : Z) (perm : nat) : Stage :=
  {| fnName := "github.com/paulbes/go-do/do.LoadFileHandler.func1";
     fn := fun input progress w =>
             Os.OpenFile name flag
               (ReportProgress progress ("Loading file handler to: " +:+ name) w) |}.

(** [ReadFile(fromFile)]. *)
Definition ReadFile (fromFile : string) : Stage :=
  {| fnName := "github.com/paulbes/go-do/do.ReadFile.func1";
     fn := fun _ progress w =>
             Ioutil.ReadFile fromFile
               (ReportProgress progress ("Reading content of file: " +:+ fromFile) w) |}.

(** [WriteTempFile].  The file is closed before it is handed back; what
    the run tracks is its name. *)
Definition WriteTempFile : Stage :=
  {| fnName := "github.com/paulbes/go-do/do.WriteTempFile";
     fn := fun input progress w =>
             let write (content : string) :=
               let '((f, err), w) := Ioutil.TempFile temporaryFilePrefix w in
               match f, err with
               | Some f, None =>
                   let w := ReportProgress progress ("Created temporary file: " +:+ Name f) w in
                   let (err, w) := Os.Write f content w in
                   match err with
                   | Some _ => ((Nil, err), w)
                   | None =>
                       let w := ReportProgress progress "Content written to temporary file." w in
                       let (err, w) := Os.Close f w in
                       match err with
                       | Some _ => ((Nil, err), w)
                       | None => ((File f, None), w)
                       end
                   end
               | _, _ => ((Nil, err), w)
               end in
             match input with
             | Str data => write data
             | Bytes data => write data
             | _ => ((Nil, Some notText), w)
             end |}.

(** The inner loop of [ExcludeLines]: does [line] contain an exclusion? *)
Fixpoint containsAny (line : string) (exclusions : list string) : bool :=
  match exclusions with
  | [] => false
  | exclude :: rest =>
      if GoStrings.Contains line exclude then true else containsAny line rest
  end.

(** The outer loop of [ExcludeLines]: the lines that are kept. *)
Fixpoint keepLines (content exclusions : list string) : list string :=
  match content with
  | [] => []
  | line :: rest =>
      if containsAny line exclusions then keepLines rest exclusions
      else line :: keepLines rest exclusions
  end.

(** [ExcludeLines(separator, exclusions...)]. *)
Definition ExcludeLines (separator : string) (exclusions : list string) : Stage :=
  {| fnName := "github.com/paulbes/go-do/do.ExcludeLines.func1";
     fn := fun input progress w =>
             let content :=
               match input with
               | Bytes data => GoStrings.Split data separator
               | Str data => GoStrings.Split data separator
               | _ => []
               end in
             ((Str (GoStrings.Join (keepLines content exclusions) separator), None), w) |}.

(** ** The runner *)

(** The local variables of [Run].  [calls] is a ghost field: every stage
    call made so far, as the argument given and the pair returned. *)
Record runState := RunState {
  input : value;
  err : option error;
  vars : gmap string value;
  closeFiles : list file;
  removeTempFiles : list file;
  calls : list (value * (value * option error));
}.

Definition ExecName : string := "github.com/paulbes/go-do/do.Exec".

(** The test of line 39: is the stage one of [Exec]'s closures? *)
Definition isExec (stageFn : Stage) : bool :=
  GoStrings.Contains (fnName stageFn) ExecName.

(** What [Run] hands to [stageFn]. *)
Definition stageInput (stageFn : Stage) (st : runState) : value :=
  if isExec stageFn then interceptExec (input st) (vars st) else input st.

Definition alreadyExists (Var : string) : error :=
  "variable: " +:+ Var +:+ " already exists".

Definition isTemporary (f : file) : bool :=
  GoStrings.HasPrefix (GoPath.Base (Name f)) temporaryFilePrefix.

(** The loop labelled [ToExecution] (lines 37-62). *)
Fixpoint ToExecution (progress : option writer) (stages : list Stage)
    (st : runState) (w : world) : runState * world :=
  match stages with
  | [] => (st, w)
  | stageFn :: rest =>
      let arg := stageInput stageFn st in
      let '((out, e), w) := fn stageFn arg progress w in
      let called := calls st ++ [(arg, (out, e))] in
      match e with
      | Some _ =>
          (RunState out e (vars st) (closeFiles st) (removeTempFiles st) called, w)
      | None =>
          match out with
          | File f =>
              if isTemporary f
              then ToExecution progress rest
                     (RunState out None (vars st) (closeFiles st)
                        (removeTempFiles st ++ [f]) called) w
              else ToExecution progress rest
                     (RunState out None (vars st) (closeFiles st ++ [f])
                        (removeTempFiles st) called) w
          | save Var Val =>
              match vars st !! Var with
              | Some _ =>
                  (RunState out (Some (alreadyExists Var)) (vars st) (closeFiles st)
                     (removeTempFiles st) called, w)
              | None =>
                  ToExecution progress rest
                    (RunState out None (<[Var := Val]> (vars st)) (closeFiles st)
                       (removeTempFiles st) called) w
              end
          | _ =>
              ToExecution progress rest
                (RunState out None (vars st) (closeFiles st) (removeTempFiles st) called) w
          end
      end
  end.

(** The loop of lines 63-68; the boolean tells whether it executed
    [return]. *)
Fixpoint closeLoop (files : list file) (err : option error) (w : world)
    : (bool * option error) * world :=
  match files with
  | [] => ((false, err), w)
  | f :: rest =>
      let (err, w) := Os.Close f w in
      match err with
      | Some _ => ((true, err), w)
      | None => closeLoop rest err w
      end
  end.

(** The loop of lines 69-74. *)
Fixpoint removeLoop (files : list file) (err : option error) (w : world)
    : (bool * option error) * world :=
  match files with
  | [] => ((false, err), w)
  | f :: rest =>
      let (err, w) := Os.Remove (Name f) w in
      match err with
      | Some _ => ((true, err), w)
      | None => removeLoop rest err w
      end
  end.

(** The state [Run] starts from. *)
Definition fresh_run : runState := RunState Nil None ∅ [] [] [].

(** Lines 63-75: what [Run] does once the stage loop is over. *)
Definition cleanup (st : runState) (w : world) : (value * option error) * world :=
  let '((returned, err), w) := closeLoop (closeFiles st) (err st) w in
  if returned then ((input st, err), w)
  else
    let '((_, err), w) := removeLoop (removeTempFiles st) err w in
    ((input st, err), w).

(** Lines 29-31: a nil [progress] becomes [ioutil.Discard]. *)
Definition orDiscard (progress : option writer) : option writer :=
  match progress with
  | None => Some Discard
  | Some _ => progress
  end.

(** [Run(progress, stages...)]. *)
Definition Run (progress : option writer) (stages : list Stage) (w : world)
    : (value * option error) * world :=
  let progress := orDiscard progress in
  let (st, w) := ToExecution progress stages fresh_run w in
  cleanup st w.

(** [Split(left, right)]. *)
Definition Split (left right : list Stage) : Stage :=
  {| fnName := "github.com/paulbes/go-do/do.Split.func1";
     fn := fun input progress w =>
             let '((l, err), w) := Run progress (Insert input :: left) w in
             match err with
             | Some _ => ((input, err), w)
             | None =>
                 let '((r, err), w) := Run progress (Insert input :: right) w in
                 match err with
                 | Some _ => ((input, err), w)
                 | None => ((SplitResult l r, None), w)
                 end
             end |}.

(** ** Running a command

    What the operating system answers to the calls of [doExecute], one
    field per call.  [errOut] and [errErr] are the errors of the two
    [io.Copy] drains as [doExecute] reads them on line 335, [outBuff] is
    what the drain of the standard output has accumulated by line 339.
    (The source starts the two drains as goroutines and does not wait for
    them; the model takes the values the function reads and says nothing
    about that race.) *)

Record process := {
  getwd : option error;        (* os.Getwd *)
  stdoutPipe : option error;   (* cmd.StdoutPipe *)
  stderrPipe : option error;   (* cmd.StderrPipe *)
  start : option error;        (* cmd.Start: the process could not be spawned *)
  wait : option error;         (* cmd.Wait: the exit status was not zero *)
  errOut : option error;       (* io.Copy(stdout, stdoutIn) *)
  errErr : option error;       (* io.Copy(stderr, stderrIn) *)
  outBuff : string;
  errBuff : string;
}.

Section Engine.

(** The host shell: how [bash -c command] behaves in a world, and the
    world it leaves. *)
Variable bash : string -> world -> process * world.

(** What the two [io.MultiWriter]s forward to the progress writer (the
    interleaving of the two streams is not modelled). *)
Definition forward (progress : option writer) (p : process) (w : world) : world :=
  match progress with
  | Some Console => withShown (shown w ++ [outBuff p; errBuff p]) w
  | _ => w
  end.

(** [doExecute(progress, command)]. *)
Definition doExecute (progress : option writer) (command : string) (w : world)
    : (value * option error) * world :=
  let (p, ran) := bash command w in
  match getwd p with
  | Some e => ((Nil, Some e), w)
  | None =>
  match stdoutPipe p with
  | Some e => ((Nil, Some e), w)
  | None =>
  match stderrPipe p with
  | Some e => ((Nil, Some e), w)
  | None =>
  match start p with
  | Some e => ((Nil, Some e), w)
  | None =>
      let w := forward progress p ran in
      let err := wait p in
      match err with
      | Some _ => ((Nil, err), w)
      | None =>
          if bool_decide (errOut p ≠ None) || bool_decide (errErr p ≠ None)
          then ((Nil, err), w)
          else ((Bytes (outBuff p), None), w)
      end
  end end end end.

Definition unsupported : error :=
  "don't know how to replace content, required: string, []byte or *os.File".

(** [fmt.Sprintf("#{%s}", varName)]. *)
Definition placeholder (varName : string) : string := "#{" +:+ varName +:+ "}".

(** [replaceVar(cmd, varName, with)]. *)
Definition replaceVar (cmd varName : string) (with_ : value) : string * option error :=
  match with_ with
  | Bytes data => (GoStrings.Replace cmd (placeholder varName) data, None)
  | Str data => (GoStrings.Replace cmd (placeholder varName) data, None)
  | File data => (GoStrings.Replace cmd (placeholder varName) (Name data), None)
  | _ => (EmptyString, Some unsupported)
  end.

(** The switch of lines 270-277 on the output of the previous stage. *)
Definition replaceAmbient (cmd : string) (d : value) : string :=
  match d with
  | Bytes d => GoStrings.Replace cmd "#{content}" d
  | Str d => GoStrings.Replace cmd "#{content}" d
  | File d => GoStrings.Replace cmd "#{file}" (Name d)
  | _ => cmd
  end.

(** The loop of lines 278-283 over the entries of [data.Vars], in the
    order the runtime serves them.  [cmd, err = replaceVar(...)] assigns
    both results, so a failure leaves the empty string in [cmd]. *)
Fixpoint replaceVars (cmd : string) (entries : list (string * value))
    : string * option error :=
  match entries with
  | [] => (cmd, None)
  | (varName, i) :: rest =>
      let (cmd, err) := replaceVar cmd varName i in
      match err with
      | Some _ => (cmd, err)
      | None => replaceVars cmd rest
      end
  end.

(** Lines 268-287: the text [Exec] resolves from [cmd]. *)
Definition substitute (cmd : string) (d : value) (entries : list (string * value))
    : string * option error :=
  replaceVars (replaceAmbient cmd d) entries.

Definition notIntercepted : error := "exec command wasn't intercepted".

(** The closure [Exec] returns.  It captures the variable [cmd] of
    [Exec] and assigns to it: [closure] is the place of that variable in
    [closures], and what an invocation assigns stays there for the next
    one. *)
Definition ExecFunc1 (closure : nat) : StageFn :=
  fun input progress w =>
    let cmd := default EmptyString (closures w !! closure) in
    match input with
    | interceptExec d Vars =>
        let (entries, w) := rangeMap Vars w in
        let (cmd, err) := substitute cmd d entries in
        let w := withClosures (<[closure := cmd]> (closures w)) w in
        match err with
        | Some _ => ((Nil, err), w)
        | None =>
            doExecute progress cmd
              (ReportProgress progress ("Executing command: " +:+ cmd) w)
        end
    | _ => ((Nil, Some notIntercepted), w)
    end.

Definition ExecStage (closure : nat) : Stage :=
  {| fnName := "github.com/paulbes/go-do/do.Exec.func1"; fn := ExecFunc1 closure |}.

(** [Exec(cmd)]: a new closure, with its own [cmd]. *)
Definition Exec (cmd : string) (w : world) : Stage * world :=
  let closure := fresh (dom (closures w)) in
  (ExecStage closure, withClosures (<[closure := cmd]> (closures w)) w).

End Engine.

(** ** Vocabulary of the specification *)

(** *** Resource tracking

    The files the stage calls handed back without an error, in the order
    of the calls; the release operations a run owes for the files it
    tracks; whether the cleanup of lines 63-75 leaves through one of its
    two early [return]s. *)

Definition fileReturned (c : value * (value * option error)) : option file :=
  match c with
  | (_, (File f, None)) => Some f
  | _ => None
  end.

Definition registrations (st : runState) : list file := omap fileReturned (calls st).




Definition cleanupStops (st : runState) (w : world) : bool :=
  let '((returned, e), w) := closeLoop (closeFiles st) (err st) w in
  returned || (removeLoop (removeTempFiles st) e w).1.1.


(** *** Command templates, read the way the specification reads them

    A template is literal text with placeholders in it.  [fill] is the
    substitution of the specification: every placeholder whose name has a
    meaning is replaced by it, all at once; the others stay as they are. *)

Inductive token :=
| Lit (text : string)
| Hole (name : string).

Definition renderToken (t : token) : string :=
  match t with
  | Lit text => text
  | Hole name => placeholder name
  end.

Fixpoint render (template : list token) : string :=
  match template with
  | [] => EmptyString
  | t :: rest => renderToken t +:+ render rest
  end.

(** The textual form of a value that has one. *)
Definition textOf (v : value) : option string :=
  match v with
  | Str s => Some s
  | Bytes b => Some b
  | File f => Some (Name f)
  | _ => None
  end.

(** What [content] and [file] stand for, given the previous stage's output. *)
Definition ambient (d : value) (name : string) : option string :=
  match d with
  | Str s => if String.eqb name "content" then Some s else None
  | Bytes b => if String.eqb name "content" then Some b else None
  | File f => if String.eqb name "file" then Some (Name f) else None
  | _ => None
  end.

Definition meaning (d : value) (m : gmap string value) (name : string) : option string :=
  match ambient d name with
  | Some s => Some s
  | None => m !! name ≫= textOf
  end.

Definition fillToken (d : value) (m : gmap string value) (t : token) : string :=
  match t with
  | Lit text => text
  | Hole name => default (placeholder name) (meaning d m name)
  end.

Fixpoint fill (d : value) (m : gmap string value) (template : list token) : string :=
  match template with
  | [] => EmptyString
  | t :: rest => fillToken d m t +:+ fill d m rest
  end.

Fixpoint hashFree (s : string) : bool :=
  match s with
  | EmptyString => true
  | String c s' => negb (Ascii.eqb c "#"%char) && hashFree s'
  end.

(** In a well-formed template a [#] only ever opens a placeholder, and a
    placeholder's name is made of letters. *)
Definition wellFormedToken (t : token) : bool :=
  match t with
  | Lit text => hashFree text
  | Hole name => matchLetters name
  end.

Definition wellFormed (template : list token) : bool := forallb wellFormedToken template.

(** The specification's sentence on substitution: whatever order the
    runtime serves the store in ([n]), [Exec] resolves the template to its
    all-at-once substitution. *)
Definition substitutesAtOnce (template : list token) (d : value)
    (m : gmap string value) (n : nat) : Prop :=
  substitute (render template) d (arrange n (map_to_list m)) = (fill d m template, None).

(** An error message names a variable when the name occurs in it. *)
Definition mentions (e : error) (varName : string) : bool := GoStrings.Contains e varName.

(** A value [replaceVar] has a textual form for. *)
Definition textual (v : value) : bool :=
  match v with
  | Str _ | Bytes _ | File _ => true
  | _ => false
  end.

(** An [Exec] stage fails naming the variable: the error it returns
    mentions [varName]. *)
Definition failsNamingTheVariable (cmd : string) (d : value) (m : gmap string value)
    (n : nat) (varName : string) : Prop :=
  exists e, (substitute cmd d (arrange n (map_to_list m))).2 = Some e
            /\ mentions e varName = true.

(** A value whose textual form holds no [#]. *)
Definition plainText (v : value) : bool :=
  match textOf v with
  | Some s => hashFree s
  | None => false
  end.

(** *** Substitution, token by token

    What one [strings.Replace] of the engine does to a well-formed
    template: [plug] fills the holes named [k]; [plugAmbient] is the
    switch on the previous output, [resolve] a whole store at once. *)

Definition plug (k v : string) (t : token) : token :=
  match t with
  | Lit _ => t
  | Hole name => if String.eqb name k then Lit v else t
  end.

Definition plugAmbient (d : value) (t : token) : token :=
  match d with
  | Str s => plug "content" s t
  | Bytes b => plug "content" b t
  | File f => plug "file" (Name f) t
  | _ => t
  end.

Definition resolve (m : gmap string value) (t : token) : token :=
  match t with
  | Lit _ => t
  | Hole name =>
      match m !! name ≫= textOf with
      | Some s => Lit s
      | None => t
      end
  end.

(** The bookkeeping invariant of the stage loop: the two lists hold the
    files handed back so far, split by kind, in the order of the calls. *)
Definition booked (st : runState) : Prop :=
  closeFiles st = filter (fun f => isTemporary f = false) (registrations st)
  /\ removeTempFiles st = filter (fun f => isTemporary f = true) (registrations st).

(** ** Worlds, shells and pipelines used in the examples

    [transcript] is a shell that exits with status 0 and prints the
    command line it was given: the output of an [Exec] stage is then the
    text it resolved.  [brokenPipe] is a shell whose process exits with
    status 0 while the drain of its standard output fails.  [blank] is an
    empty disk with nothing open and no fault; in [flaky] closing file
    object 3 meets an I/O error. *)

Definition printing (out : string) : process :=
  {| getwd := None; stdoutPipe := None; stderrPipe := None; start := None;
     wait := None; errOut := None; errErr := None;
     outBuff := out; errBuff := EmptyString |}.

Definition transcript (command : string) (w : world) : process * world :=
  (printing command, w).

Definition brokenPipe (command : string) (w : world) : process * world :=
  ({| getwd := None; stdoutPipe := None; stderrPipe := None; start := None;
      wait := None; errOut := Some "write |1: broken pipe"; errErr := None;
      outBuff := EmptyString; errBuff := EmptyString |}, w).

Definition blank : world := World ∅ ∅ 3 ∅ [] [] [] [].

Definition flaky : world := World ∅ ∅ 3 ∅ [] [SysClose 3] [] [].

Definition result {A B} (r : A * B) : A := r.1.

(** A temporary file is written, then a stage fails. *)
Definition failingRun : list Stage :=
  [Insert (Str "hello"); WriteTempFile; SaveInVar "content"].

(** A persistent and a temporary file are tracked; every stage succeeds. *)
Definition mixedRun : list Stage :=
  [LoadFileHandler "/data/report" Os.O_CREATE 438; Insert (Str "x"); WriteTempFile].

(** A stage that hands back what it was given, as a caller may write it. *)
Definition passOn : Stage :=
  {| fnName := "main.main.func1"; fn := fun input progress w => ((input, None), w) |}.

(** The store and the template of the specification's substitution example. *)
Definition exampleStore : gmap string value :=
  <["a" := Str "X"]> (<["b" := File {| ptr := 7; Name := "/tmp/y" |}]> ∅).

Definition exampleTemplate : list token :=
  [Hole "a"; Lit "-"; Hole "content"; Lit "-"; Hole "b"].

(** The state of a run after ["hello"] has been bound to [myVar]. *)
Definition bound : runState :=
  (ToExecution (Some Discard) [Insert (Str "hello"); SaveInVar "myVar"] fresh_run blank).1.

(** ** Vocabulary of the further properties *)

(** The markers the stage calls handed back without an error, in the
    order of the calls. *)
Definition markerReturned (c : value * (value * option error)) : option (string * value) :=
  match c with
  | (_, (save Var Val, None)) => Some (Var, Val)
  | _ => None
  end.

Definition markers (st : runState) : list (string * value) := omap markerReturned (calls st).

(** The store holds, for each name, the first marker handed back for it. *)
Definition storeOfMarkers (st : runState) : Prop :=
  vars st = list_to_map (markers st).

(** The names [SaveInVar] lets through (lines 91-97). *)
Definition acceptedName (varName : string) : bool :=
  matchLetters varName && negb (String.eqb varName "content")
  && negb (String.eqb varName "file").

(** A stage whose markers all carry accepted names. *)
Definition bindsAcceptedNames (s : Stage) : Prop :=
  forall input progress w Var Val w',
    fn s input progress w = ((save Var Val, None), w') -> acceptedName Var = true.

(** The value the last stage call returned; nil before the first call. *)
Definition lastReturned (st : runState) : value :=
  match last (calls st) with
  | Some c => c.2.1
  | None => Nil
  end.

Definition returnsLast (st : runState) : Prop := input st = lastReturned st.

(** [substr] occurs in [s]. *)
Definition occursIn (substr s : string) : Prop :=
  exists a b, s = a +:+ substr +:+ b.

(** The text of an input the text stages accept: a string or a byte
    slice. *)
Definition textInput (v : value) : option string :=
  match v with
  | Str s => Some s
  | Bytes b => Some b
  | _ => None
  end.



(** No slash in [s]. *)
Fixpoint slashFree (s : string) : bool :=
  match s with
  | EmptyString => true
  | String c s' => negb (Ascii.eqb c "/"%char) && slashFree s'
  end.

(** A world in which the file object 3 is open on [/data/report], and a
    world in which closure 0 holds the template of the specification's
    example. *)
Definition serving : world :=
  World {["/data/report" := "x"]} {[3]} 4 ∅ [] [] [] [].


(** * Properties *)

(** ** The library functions and the package's own test cases *)

Example Replace_all_occurrences :
  GoStrings.Replace "a#{x}b#{x}#{y}" "#{x}" "12" = "a12b12#{y}".
Proof. reflexivity. Qed.

Example Replace_leftmost_first :
  GoStrings.Replace "aaa" "aa" "b" = "ba".
Proof. reflexivity. Qed.

Example Split_keeps_the_empty_tail :
  GoStrings.Split ("hi" +:+ "|" +:+ "there and here" +:+ "|" +:+ "you" +:+ "|") "|"
  = ["hi"; "there and here"; "you"; EmptyString].
Proof. reflexivity. Qed.

Example Base_examples :
  GoPath.Base "/tmp/godo-temporary-file042" = "godo-temporary-file042"
  /\ GoPath.Base "/data/out/" = "out" /\ GoPath.Base "///" = "/"
  /\ GoPath.Base EmptyString = "." /\ GoPath.Base "plain" = "plain".
Proof. repeat split. Qed.

Example test_save_exec :
  let (exec, w) := Exec transcript "echo -n #{myVar}" blank in
  result (Run None [Insert (Str "hello"); SaveInVar "myVar"; Insert Nil; exec] w)
  = (Bytes "echo -n hello", None).
Proof. vm_compute. reflexivity. Qed.

Example test_save_illegal_var :
  result (Run None [Insert (Str "hello"); SaveInVar "myVar1"] blank)
  = (Nil, Some invalidName).
Proof. vm_compute. reflexivity. Qed.

Example test_duplicate_var :
  result (Run None [Insert (Str "hello"); SaveInVar "myVar"; SaveInVar "myVar"] blank)
  = (save "myVar" (save "myVar" (Str "hello")), Some "variable: myVar already exists").
Proof. vm_compute. reflexivity. Qed.

Example test_exclude_string :
  result (Run None [Insert (Str "hello everyone"); ExcludeLines newline ["every"]] blank)
  = (Str EmptyString, None).
Proof. vm_compute. reflexivity. Qed.

Example test_exclude :
  result (Run None
            [Insert (Bytes ("hi" +:+ newline +:+ "there and here" +:+ newline +:+ "you" +:+ newline));
             ExcludeLines newline ["hi"; "there"]] blank)
  = (Str ("you" +:+ newline), None).
Proof. vm_compute. reflexivity. Qed.

Example test_read_write :
  result (Run None [Insert (Str "some content"); WriteFile "/d/something";
                    ReadFile "/d/something"] blank)
  = (Bytes "some content", None).
Proof. vm_compute. reflexivity. Qed.

Example test_save_file_name :
  let (exec, w) := Exec transcript "cat #{myFile}" blank in
  result (Run None [Insert (Str "hello"); WriteTempFile; SaveInVar "myFile";
                    Insert Nil; exec] w)
  = (Bytes "cat /tmp/godo-temporary-file3", None).
Proof. vm_compute. reflexivity. Qed.

Example test_temp_write :
  let (exec, w) := Exec transcript "cat #{file}" blank in
  let r := Run None [Insert (Str "hello there"); WriteTempFile; exec] w in
  result r = (Bytes "cat /tmp/godo-temporary-file3", None)
  /\ disk r.2 = ∅
  /\ journal r.2 = [SysTempFile "/tmp/godo-temporary-file3"; SysWrite 3; SysClose 3;
                    SysRemove "/tmp/godo-temporary-file3"].
Proof. vm_compute. repeat split. Qed.

(** ** Strings *)

Lemma append_cons (x : ascii) (a s : string) : String x a +:+ s = String x (a +:+ s).
Proof. reflexivity. Qed.

Lemma append_assoc (a b c : string) : (a +:+ b) +:+ c = a +:+ (b +:+ c).
Proof.
  induction a as [|x a IH]; [reflexivity |].
  rewrite !append_cons. f_equal. exact IH.
Qed.

Lemma prefix_same (x : ascii) (a s : string) :
  String.prefix (String x a) (String x s) = String.prefix a s.
Proof.
  change (String.prefix (String x a) (String x s))
    with (if ascii_dec x x then String.prefix a s else false).
  destruct (ascii_dec x x); [reflexivity | congruence].
Qed.

Lemma prefix_differ (x y : ascii) (a s : string) :
  x ≠ y -> String.prefix (String x a) (String y s) = false.
Proof.
  intros Hne.
  change (String.prefix (String x a) (String y s))
    with (if ascii_dec x y then String.prefix a s else false).
  destruct (ascii_dec x y); [congruence | reflexivity].
Qed.

Lemma prefix_append (a s : string) : String.prefix a (a +:+ s) = true.
Proof.
  induction a as [|x a IH]; [by destruct s |].
  rewrite append_cons, prefix_same. exact IH.
Qed.

Lemma isLetter_plain (c : ascii) :
  isLetter c = true -> c ≠ "#"%char /\ c ≠ "{"%char /\ c ≠ "}"%char.
Proof. intros H. repeat split; intros ->; vm_compute in H; discriminate. Qed.

Lemma matchLetters_all (k : string) : matchLetters k = true -> allLetters k = true.
Proof. by destruct k. Qed.

(** Two placeholders that start at the same place have the same name. *)
Lemma prefix_names (k n s : string) :
  allLetters k = true -> allLetters n = true ->
  String.prefix (k +:+ "}") (n +:+ "}" +:+ s) = true -> k = n.
Proof.
  revert n. induction k as [|x k IH]; intros [|y n] Hk Hn; try done.
  - apply andb_prop in Hn as [Hy _]. destruct (isLetter_plain y Hy) as (_ & _ & H).
    rewrite append_cons. change (EmptyString +:+ "}") with (String "}" EmptyString).
    rewrite prefix_differ by congruence. done.
  - apply andb_prop in Hk as [Hx _]. destruct (isLetter_plain x Hx) as (_ & _ & H).
    rewrite append_cons. change (EmptyString +:+ "}" +:+ s) with (String "}" s).
    rewrite prefix_differ by congruence. done.
  - simpl in Hk, Hn. apply andb_prop in Hk as [_ Hk]. apply andb_prop in Hn as [_ Hn].
    rewrite !append_cons.
    destruct (decide (x = y)) as [->|Hxy].
    + rewrite prefix_same. intros H. f_equal. by apply IH.
    + rewrite prefix_differ by done. done.
Qed.

(** ** [strings.Replace] on a placeholder

    Three equations drive the scan: it jumps over an occurrence, it copies
    a character that cannot open one, it copies a placeholder of another
    name. *)

Lemma placeholder_cons (k : string) :
  placeholder k = String "#" (String "{" (k +:+ "}")).
Proof. reflexivity. Qed.

Lemma replaceFrom_skip (old new a s : string) :
  GoStrings.replaceFrom old new (String.length a) (a +:+ s)
  = GoStrings.replaceFrom old new 0 s.
Proof.
  induction a as [|x a IH]; [by destruct s |].
  rewrite append_cons. exact IH.
Qed.

Lemma Replace_placeholder (k v s : string) :
  GoStrings.Replace s (placeholder k) v = GoStrings.replaceFrom (placeholder k) v 0 s.
Proof. reflexivity. Qed.

Lemma Replace_hit (k v s : string) :
  GoStrings.Replace (placeholder k +:+ s) (placeholder k) v
  = v +:+ GoStrings.Replace s (placeholder k) v.
Proof.
  rewrite !Replace_placeholder.
  rewrite <- (replaceFrom_skip (placeholder k) v (String "{" (k +:+ "}")) s).
  rewrite placeholder_cons at 2. rewrite append_cons.
  cbn [GoStrings.replaceFrom].
  change (String "#" (String "{" (k +:+ "}") +:+ s)) with (placeholder k +:+ s).
  rewrite prefix_append. reflexivity.
Qed.

Lemma Replace_pass (c : ascii) (k v s : string) :
  c ≠ "#"%char ->
  GoStrings.Replace (String c s) (placeholder k) v
  = String c (GoStrings.Replace s (placeholder k) v).
Proof.
  intros Hc. rewrite !Replace_placeholder. cbn [GoStrings.replaceFrom].
  rewrite placeholder_cons at 1. rewrite prefix_differ by congruence. reflexivity.
Qed.

Lemma Replace_literal (l k v s : string) :
  hashFree l = true ->
  GoStrings.Replace (l +:+ s) (placeholder k) v
  = l +:+ GoStrings.Replace s (placeholder k) v.
Proof.
  induction l as [|c l IH]; intros Hl; [reflexivity |].
  simpl in Hl. apply andb_prop in Hl as [Hc Hl].
  apply negb_true_iff, Ascii.eqb_neq in Hc.
  rewrite !append_cons, Replace_pass by done. by rewrite IH.
Qed.

Lemma Replace_other (n k v s : string) :
  allLetters n = true -> allLetters k = true -> n ≠ k ->
  GoStrings.Replace (placeholder n +:+ s) (placeholder k) v
  = placeholder n +:+ GoStrings.Replace s (placeholder k) v.
Proof.
  intros Hn Hk Hne.
  assert (Hmiss : String.prefix (placeholder k) (placeholder n +:+ s) = false).
  { rewrite !placeholder_cons, !append_cons, !prefix_same.
    destruct (String.prefix (k +:+ "}") ((n +:+ "}") +:+ s)) eqn:E; [| done].
    rewrite append_assoc in E. apply prefix_names in E; congruence. }
  rewrite Replace_placeholder.
  rewrite (placeholder_cons n) at 1. rewrite append_cons.
  cbn [GoStrings.replaceFrom].
  change (String "#" (String "{" (n +:+ "}") +:+ s)) with (placeholder n +:+ s).
  rewrite Hmiss.
  change (GoStrings.replaceFrom (placeholder k) v 0 (String "{" (n +:+ "}") +:+ s))
    with (GoStrings.Replace (String "{" (n +:+ "}") +:+ s) (placeholder k) v).
  rewrite Replace_literal; [reflexivity |].
  simpl. clear - Hn. induction n as [|c n IH]; [reflexivity |].
  simpl in Hn. apply andb_prop in Hn as [Hc Hn].
  rewrite append_cons. simpl. rewrite IH by done.
  destruct (isLetter_plain c Hc) as (H & _ & _). apply Ascii.eqb_neq in H. by rewrite H.
Qed.

(** ** The order of a map range

    [arrange n] only reorders, and every order is the [arrange] of some
    draw: a statement proved for every [n] holds for every order the
    runtime may choose. *)

Lemma insertAt_perm {A} (i : nat) (x : A) (l : list A) : insertAt i x l ≡ₚ x :: l.
Proof.
  revert i. induction l as [|y l IH]; intros [|i]; simpl; try reflexivity.
  rewrite IH. apply Permutation_swap.
Qed.

Lemma arrange_perm {A} (n : nat) (l : list A) : arrange n l ≡ₚ l.
Proof.
  revert n. induction l as [|x l IH]; intros n; simpl; [reflexivity |].
  rewrite insertAt_perm. by rewrite IH.
Qed.

Lemma insertAt_middle {A} (x : A) (l1 l2 : list A) :
  insertAt (length l1) x (l1 ++ l2) = l1 ++ x :: l2.
Proof. induction l1 as [|y l1 IH]; [by destruct l2 | cbn; by rewrite IH]. Qed.

Lemma arrange_complete {A} (l : list A) : forall l', l ≡ₚ l' -> exists n, arrange n l = l'.
Proof.
  induction l as [|x l IH]; intros l' Hp.
  - apply Permutation_nil_l in Hp. subst l'. by exists 0.
  - assert (Hx : x ∈ l') by (rewrite <- Hp; apply list_elem_of_here).
    apply list_elem_of_split in Hx as (l1 & l2 & ->).
    apply Permutation_cons_app_inv in Hp.
    destruct (IH _ Hp) as [m Hm].
    assert (Hlen : length l1 < S (length l)).
    { rewrite Hp, length_app. lia. }
    exists (length l1 + m * S (length l)). cbn [arrange].
    rewrite Nat.Div0.mod_add, Nat.div_add by lia.
    rewrite Nat.mod_small, Nat.div_small by lia.
    rewrite Nat.add_0_l, Hm. apply insertAt_middle.
Qed.

Lemma arrange_store (m : gmap string value) (n : nat) :
  list_to_map (arrange n (map_to_list m)) = m.
Proof.
  rewrite <- (list_to_map_to_list m) at 2.
  apply list_to_map_proper; [| apply arrange_perm].
  rewrite arrange_perm. apply NoDup_fst_map_to_list.
Qed.

(** ** Substitution on well-formed templates *)

Lemma wellFormed_plug (k v : string) (t : list token) :
  hashFree v = true -> wellFormed t = true -> wellFormed (map (plug k v) t) = true.
Proof.
  intros Hv. induction t as [|x t IH]; simpl; [done |].
  intros [Hx Ht]%andb_prop. rewrite IH by done. rewrite andb_true_r.
  destruct x as [l|name]; simpl; [done |].
  destruct (String.eqb name k); done.
Qed.

(** One [strings.Replace] fills the holes of its name and nothing else. *)
Lemma Replace_render (k v : string) (t : list token) :
  allLetters k = true -> wellFormed t = true ->
  GoStrings.Replace (render t) (placeholder k) v = render (map (plug k v) t).
Proof.
  intros Hk. induction t as [|x t IH]; [reflexivity |].
  intros [Hx Ht]%andb_prop. specialize (IH Ht).
  cbn [map render]. destruct x as [l|name]; cbn [plug renderToken] in *.
  - by rewrite Replace_literal, IH.
  - apply matchLetters_all in Hx.
    destruct (String.eqb_spec name k) as [->|Hne]; cbn [renderToken].
    + by rewrite Replace_hit, IH.
    + by rewrite Replace_other, IH.
Qed.

Lemma resolve_empty (t : list token) : map (resolve ∅) t = t.
Proof.
  induction t as [|[l|name] t IH]; cbn [map resolve]; [done | by rewrite IH |].
  rewrite lookup_empty. cbn. by rewrite IH.
Qed.

Lemma resolve_insert (k : string) (v : value) (s : string) (M : gmap string value)
    (tok : token) :
  textOf v = Some s -> resolve (<[k := v]> M) tok = resolve M (plug k s tok).
Proof.
  intros Hv. destruct tok as [l|name]; simpl; [done |].
  destruct (String.eqb_spec name k) as [->|Hne]; simpl.
  - by rewrite lookup_insert_eq; simpl; rewrite Hv.
  - by rewrite lookup_insert_ne.
Qed.

(** The loop over the store, in whatever order its entries come. *)
Lemma replaceVars_render (entries : list (string * value)) : forall t,
  wellFormed t = true ->
  Forall (fun e => matchLetters e.1 = true /\ plainText e.2 = true) entries ->
  replaceVars (render t) entries
  = (render (map (resolve (list_to_map entries)) t), None).
Proof.
  induction entries as [|[k v] rest IH]; intros t Ht Hall.
  - cbn [replaceVars]. change (list_to_map []) with (∅ : gmap string value).
    by rewrite resolve_empty.
  - apply Forall_cons in Hall as [[Hk Hv] Hall]. simpl in Hk, Hv.
    unfold plainText in Hv. destruct (textOf v) as [s|] eqn:Es; [| done].
    assert (Hstep : replaceVar (render t) k v
                    = (render (map (plug k s) t), None)).
    { apply matchLetters_all in Hk.
      destruct v; cbn [textOf] in Es; try done; injection Es as <-;
        cbn [replaceVar]; by rewrite Replace_render. }
    cbn [replaceVars]. rewrite Hstep. rewrite IH; [| by apply wellFormed_plug | done].
    f_equal. f_equal. rewrite List.map_map. apply List.map_ext. intros tok.
    symmetry. by apply resolve_insert.
Qed.

Lemma plugAmbient_wellFormed (d : value) (t : list token) :
  (forall s, textOf d = Some s -> hashFree s = true) ->
  wellFormed t = true -> wellFormed (map (plugAmbient d) t) = true.
Proof.
  intros Hd Ht.
  destruct d; cbn [plugAmbient]; try (by apply wellFormed_plug; [apply Hd |]);
    by rewrite (List.map_ext _ (fun x => x)), List.map_id.
Qed.

Lemma replaceAmbient_render (d : value) (t : list token) :
  wellFormed t = true ->
  replaceAmbient (render t) d = render (map (plugAmbient d) t).
Proof.
  intros Ht.
  destruct d; cbn [replaceAmbient plugAmbient];
    try (by rewrite (List.map_ext _ (fun x => x)), List.map_id).
  - by apply (Replace_render "content").
  - by apply (Replace_render "content").
  - by apply (Replace_render "file").
Qed.

Lemma fillToken_resolve (d : value) (m : gmap string value) (tok : token) :
  renderToken (resolve m (plugAmbient d tok)) = fillToken d m tok.
Proof.
  assert (Hrest : forall name,
             renderToken (resolve m (Hole name))
             = default (placeholder name) (m !! name ≫= textOf)).
  { intros name. cbn [resolve]. by destruct (m !! name ≫= textOf). }
  destruct tok as [l|name]; [by destruct d |].
  unfold fillToken, meaning.
  destruct d; cbn [plugAmbient plug ambient]; try apply Hrest;
    (destruct (String.eqb name _); [reflexivity | apply Hrest]).
Qed.

Lemma fill_resolve (d : value) (m : gmap string value) (t : list token) :
  render (map (resolve m) (map (plugAmbient d) t)) = fill d m t.
Proof.
  induction t as [|tok t IH]; [reflexivity |].
  cbn [map render fill]. by rewrite fillToken_resolve, IH.
Qed.

(** The loop over a store of plain texts, in the [n]-th order. *)
Lemma replaceVars_arranged (t : list token) (m : gmap string value) (n : nat) :
  wellFormed t = true ->
  (forall k v, m !! k = Some v -> matchLetters k = true /\ plainText v = true) ->
  replaceVars (render t) (arrange n (map_to_list m))
  = (render (map (resolve m) t), None).
Proof.
  intros Ht Hm. rewrite replaceVars_render, ?arrange_store; [done | done |].
  rewrite arrange_perm. apply Forall_forall. intros [k v] Hin.
  apply elem_of_map_to_list in Hin. by apply Hm.
Qed.

Lemma exampleStore_plain (k : string) (v : value) :
  exampleStore !! k = Some v -> matchLetters k = true /\ plainText v = true.
Proof.
  unfold exampleStore.
  destruct (decide (k = "a")) as [->|Ha].
  - rewrite lookup_insert_eq. by intros [= <-].
  - rewrite lookup_insert_ne by done.
    destruct (decide (k = "b")) as [->|Hb].
    + rewrite lookup_insert_eq. by intros [= <-].
    + rewrite lookup_insert_ne by done. by rewrite lookup_empty.
Qed.

(** The two substitution examples of the specification, in every order
    the runtime may serve the store. *)
Example specification_examples_resolve (n : nat) :
  render exampleTemplate = "#{a}-#{content}-#{b}"
  /\ substitute "#{a}-#{content}-#{b}" (Str "Z") (arrange n (map_to_list exampleStore))
     = ("X-Z-/tmp/y", None)
  /\ substitute "echo #{nope}" Nil (arrange n (map_to_list exampleStore))
     = ("echo #{nope}", None).
Proof.
  split; [reflexivity |]. split.
  - change "#{a}-#{content}-#{b}" with (render exampleTemplate).
    unfold substitute. rewrite replaceAmbient_render by done.
    by rewrite replaceVars_arranged, fill_resolve by (done || apply exampleStore_plain).
  - change "echo #{nope}" with (render [Lit "echo "; Hole "nope"]).
    unfold substitute. rewrite replaceAmbient_render by done.
    by rewrite replaceVars_arranged, fill_resolve by (done || apply exampleStore_plain).
Qed.

(** Where a value holds a placeholder, the order of the range decides the
    result: with [a = #{b}] and [b = Y], the template [#{a}] resolves to
    [Y] in one order and to [#{b}] in the other. *)
Example order_of_the_range_matters :
  let m : gmap string value := <["a" := Str "#{b}"]> (<["b" := Str "Y"]> ∅) in
  substitute "#{a}" Nil (arrange 0 (map_to_list m)) = ("Y", None)
  /\ substitute "#{a}" Nil (arrange 1 (map_to_list m)) = ("#{b}", None).
Proof. vm_compute. done. Qed.

(** So it does where a [#{] of the template does not open a placeholder
    of its own: [#{#{a}}] with [a = b], [b = Q]. *)
Example stray_opening_depends_on_the_order :
  let m : gmap string value := <["a" := Str "b"]> (<["b" := Str "Q"]> ∅) in
  substitute "#{#{a}}" Nil (arrange 0 (map_to_list m)) = ("Q", None)
  /\ substitute "#{#{a}}" Nil (arrange 1 (map_to_list m)) = ("#{b}", None).
Proof. vm_compute. done. Qed.

(** C3, as the specification states it, fails: the replacements are made
    one after the other on the text so far, so the text put in for
    [#{content}] is itself searched for [#{a}].  Template [#{content}],
    previous output [#{a}], store [a = X]: the all-at-once substitution is
    [#{a}], [Exec] resolves [X]. *)
Lemma substitution_is_not_at_once :
  ~ substitutesAtOnce [Hole "content"] (Str "#{a}") {["a" := Str "X"]} 0.
Proof. unfold substitutesAtOnce. vm_compute. discriminate. Qed.

(** C3, amended.  For every well-formed template, every store whose names
    are made of letters and whose values are strings, byte slices or files
    with a textual form free of [#], every previous output whose textual
    form (if it has one) is free of [#], and every order [n] in which the
    runtime serves the store: [Exec] resolves the template to its
    all-at-once substitution: each [#{content}] replaced by the text of a
    string or byte-slice output, each [#{file}] by the path of a file
    output, each [#{name}] of a bound name by the textual form of its
    value, every other placeholder left as it is. *)
Theorem substitution_of_plain_text (template : list token) (d : value)
    (m : gmap string value) (n : nat) :
  wellFormed template = true ->
  (forall k v, m !! k = Some v -> matchLetters k = true /\ plainText v = true) ->
  (forall s, textOf d = Some s -> hashFree s = true) ->
  substitutesAtOnce template d m n.
Proof.
  intros Ht Hm Hd. unfold substitutesAtOnce, substitute.
  rewrite replaceAmbient_render by done.
  rewrite replaceVars_arranged.
  - by rewrite fill_resolve.
  - by apply plugAmbient_wellFormed.
  - exact Hm.
Qed.

(** The theorem on the specification's own example: store [a = X],
    [b = file /tmp/y], previous output [Z]. *)
Lemma substitution_of_plain_text_witness :
  wellFormed exampleTemplate = true
  /\ (forall k v, exampleStore !! k = Some v -> matchLetters k = true /\ plainText v = true)
  /\ (forall s, textOf (Str "Z") = Some s -> hashFree s = true)
  /\ substitutesAtOnce exampleTemplate (Str "Z") exampleStore 1.
Proof.
  assert (Hambient : forall s, textOf (Str "Z") = Some s -> hashFree s = true).
  { by intros s [= <-]. }
  split; [reflexivity |]. split; [exact exampleStore_plain |]. split; [exact Hambient |].
  apply (substitution_of_plain_text exampleTemplate (Str "Z") exampleStore 1);
    [reflexivity | exact exampleStore_plain | exact Hambient].
Defined.

(** ** A variable without a textual form *)

(** The loop stops at the first entry [replaceVar] has no text for. *)
Lemma replaceVars_unsupported (entries : list (string * value)) : forall cmd,
  Exists (fun e => textual e.2 = false) entries ->
  replaceVars cmd entries = (EmptyString, Some unsupported).
Proof.
  induction entries as [|[k v] rest IH]; intros cmd Hex.
  - by apply Exists_nil in Hex.
  - cbn [replaceVars]. destruct (textual v) eqn:Ev.
    + apply Exists_cons in Hex as [Hhere|Hrest]; [cbn in Hhere; congruence |].
      destruct v; try discriminate Ev; cbn [replaceVar]; by apply IH.
    + by destruct v.
Qed.

(** C8, as the specification states it, fails: the error of [replaceVar]
    is one fixed message, and it does not name the variable.  Store
    [myVar = nil]: the error does not mention [myVar]. *)
Lemma unsupported_names_no_variable :
  ~ failsNamingTheVariable "echo #{myVar}" Nil {["myVar" := Nil]} 0 "myVar".
Proof.
  intros [e [He Hm]]. vm_compute in He. injection He as <-. vm_compute in Hm. done.
Qed.

(** C8, amended.  Whenever some bound variable's value is neither a
    string, a byte slice nor a file, substitution fails, for every
    template, previous output and order of the range, with the fixed error
    [unsupported] (which names no variable); the [Exec] stage returns that
    error with a nil value and runs no command: the world it leaves
    differs from the one it found by the draw of the range and by the
    closure's [cmd], now empty. *)
Theorem unsupported_variable_fails (bash : string -> world -> process * world)
    (closure : nat) (d : value) (m : gmap string value) (k : string) (v : value)
    (progress : option writer) (w : world) :
  m !! k = Some v ->
  textual v = false ->
  (forall cmd n, substitute cmd d (arrange n (map_to_list m))
                 = (EmptyString, Some unsupported))
  /\ ExecFunc1 bash closure (interceptExec d m) progress w
     = ((Nil, Some unsupported),
        withClosures (<[closure := EmptyString]> (closures (draw w).2)) (draw w).2).
Proof.
  intros Hk Hv.
  assert (Hsub : forall cmd n, substitute cmd d (arrange n (map_to_list m))
                               = (EmptyString, Some unsupported)).
  { intros cmd n. unfold substitute. apply replaceVars_unsupported.
    apply Exists_exists. exists (k, v). split; [| done].
    rewrite arrange_perm. by apply elem_of_map_to_list. }
  split; [exact Hsub |].
  unfold ExecFunc1, rangeMap. destruct (draw w) as [n w1]. cbn [snd].
  by rewrite Hsub.
Qed.

Lemma unsupported_variable_fails_witness :
  ({["myVar" := Nil]} : gmap string value) !! "myVar" = Some Nil
  /\ textual Nil = false
  /\ ExecFunc1 transcript 0 (interceptExec Nil {["myVar" := Nil]}) None blank
     = ((Nil, Some unsupported),
        withClosures (<[0 := EmptyString]> (closures (draw blank).2)) (draw blank).2).
Proof.
  split; [by vm_compute |]. split; [reflexivity |].
  apply (unsupported_variable_fails transcript 0 Nil {["myVar" := Nil]} "myVar" Nil None blank);
    [by vm_compute | reflexivity].
Defined.

(** ** The template an [Exec] stage keeps *)

(** C9: the code does not do what the specification says.  [Exec]'s closure
    assigns the text it resolves to the captured variable [cmd], so the
    stage keeps no template.  First pair of runs: the stage built from
    [echo #{content}] resolves [echo a] on the output [a], keeps [echo a],
    and on the output [b] resolves [echo a] again.  Second pair: the same
    stage invoked twice on the same output [<#{content}>], with the same
    (empty) store, resolves two different texts. *)
Theorem Exec_overwrites_its_template :
  (let (exec, w0) := Exec transcript "echo #{content}" blank in
   let first := Run None [Insert (Str "a"); exec] w0 in
   let second := Run None [Insert (Str "b"); exec] first.2 in
   closures w0 !! 0 = Some "echo #{content}"
   /\ first.1 = (Bytes "echo a", None)
   /\ closures first.2 !! 0 = Some "echo a"
   /\ second.1 = (Bytes "echo a", None))
  /\ (let (exec, w0) := Exec transcript "#{content}" blank in
      let first := Run None [Insert (Str "<#{content}>"); exec] w0 in
      let second := Run None [Insert (Str "<#{content}>"); exec] first.2 in
      first.1 = (Bytes "<#{content}>", None)
      /\ second.1 = (Bytes "<<#{content}>>", None)).
Proof. vm_compute. done. Qed.

(** ** The executor *)

(** What [doExecute] returns when every call succeeds. *)
Lemma doExecute_success (bash : string -> world -> process * world)
    (progress : option writer) (command : string) (w : world) :
  let p := (bash command w).1 in
  getwd p = None -> stdoutPipe p = None -> stderrPipe p = None ->
  start p = None -> wait p = None -> errOut p = None -> errErr p = None ->
  (doExecute bash progress command w).1 = (Bytes (outBuff p), None).
Proof.
  intros p Hg Ho He Hs Hw Hco Hce. unfold doExecute. subst p.
  destruct (bash command w) as [p ran]. cbn [fst] in *.
  by rewrite Hg, Ho, He, Hs, Hw, Hco, Hce.
Qed.

(** A failed spawn and a non-zero exit status are reported. *)
Lemma doExecute_reports_start_and_wait (bash : string -> world -> process * world)
    (progress : option writer) (command : string) (w : world) (e : error) :
  let p := (bash command w).1 in
  getwd p = None -> stdoutPipe p = None -> stderrPipe p = None ->
  start p = Some e \/ (start p = None /\ wait p = Some e) ->
  (doExecute bash progress command w).1 = (Nil, Some e).
Proof.
  intros p Hg Ho He Hcase. unfold doExecute. subst p.
  destruct (bash command w) as [p ran]. cbn [fst] in *.
  rewrite Hg, Ho, He. destruct Hcase as [Hs|[Hs Hw]]; by rewrite Hs, ?Hw.
Qed.

(** C4: the code does not do what the specification says.  When the process is
    spawned and exits with status 0 but one of the two drains has failed,
    line 336 returns [err], the nil result of [cmd.Wait], and not the
    drain's error: the stage returns a nil value and a nil error. *)
Theorem drain_failure_is_not_reported (bash : string -> world -> process * world)
    (progress : option writer) (command : string) (w : world) :
  let p := (bash command w).1 in
  getwd p = None -> stdoutPipe p = None -> stderrPipe p = None ->
  start p = None -> wait p = None ->
  errOut p ≠ None \/ errErr p ≠ None ->
  (doExecute bash progress command w).1 = (Nil, None).
Proof.
  intros p Hg Ho He Hs Hw Hdrain. unfold doExecute. subst p.
  destruct (bash command w) as [p ran]. cbn [fst] in *.
  rewrite Hg, Ho, He, Hs, Hw.
  destruct Hdrain as [H|H].
  - by rewrite (bool_decide_eq_true_2 _ H).
  - rewrite (bool_decide_eq_true_2 _ H). by rewrite orb_true_r.
Qed.

Lemma drain_failure_is_not_reported_witness :
  (errOut (brokenPipe "echo hi" blank).1 ≠ None \/ errErr (brokenPipe "echo hi" blank).1 ≠ None)
  /\ (doExecute brokenPipe None "echo hi" blank).1 = (Nil, None).
Proof.
  split; [by left |].
  apply (drain_failure_is_not_reported brokenPipe None "echo hi" blank);
    try reflexivity. by left.
Defined.

(** The defect as a run sees it: the stage after the command is handed
    nil, and the run ends without an error. *)
Example drain_failure_in_a_run :
  let (exec, w) := Exec brokenPipe "echo hi" blank in
  result (Run None [exec; passOn] w) = (Nil, None).
Proof. vm_compute. reflexivity. Qed.

(** ** [ExcludeLines] *)

(** C10.  On an input that is neither a string nor a byte slice (nil, a
    file, anything else), an [ExcludeLines] stage returns the empty string
    and a nil error, and touches nothing. *)
Theorem ExcludeLines_drops_other_input (separator : string) (exclusions : list string)
    (input : value) (progress : option writer) (w : world) :
  (forall s, input ≠ Str s) -> (forall b, input ≠ Bytes b) ->
  fn (ExcludeLines separator exclusions) input progress w = ((Str EmptyString, None), w).
Proof.
  intros Hs Hb. cbn [fn ExcludeLines].
  destruct input; try reflexivity; [by destruct (Hs s) | by destruct (Hb b)].
Qed.

Lemma ExcludeLines_drops_other_input_witness :
  ((forall s, File {| ptr := 3; Name := "/data/report" |} ≠ Str s)
   /\ (forall b, File {| ptr := 3; Name := "/data/report" |} ≠ Bytes b))
  /\ fn (ExcludeLines newline ["hi"]) (File {| ptr := 3; Name := "/data/report" |}) None blank
     = ((Str EmptyString, None), blank).
Proof.
  split; [by split |].
  by apply (ExcludeLines_drops_other_input newline ["hi"]
              (File {| ptr := 3; Name := "/data/report" |}) None blank).
Defined.

(** ** The stage loop *)

(** One case analysis serves every induction over the loop: the call of
    the stage, its error, the type of its output. *)
Ltac loop_step stageFn st progress w out e w1 :=
  cbn [ToExecution];
  destruct (fn stageFn (stageInput stageFn st) progress w) as [[out e] w1].

Lemma ToExecution_app (progress : option writer) (xs : list Stage) : forall ys st w,
  err st = None ->
  ToExecution progress (xs ++ ys) st w
  = let (st1, w1) := ToExecution progress xs st w in
    match err st1 with
    | None => ToExecution progress ys st1 w1
    | Some _ => (st1, w1)
    end.
Proof.
  induction xs as [|stageFn xs IH]; intros ys st w Hst.
  - cbn [app ToExecution]. by rewrite Hst.
  - cbn [app]. loop_step stageFn st progress w out e w1.
    destruct e as [msg|]; [done |].
    destruct out; try (by apply IH).
    + destruct (isTemporary f); by apply IH.
    + destruct (vars st !! Var); [done | by apply IH].
Qed.

(** The loop only ever adds to the log of calls. *)
Lemma ToExecution_calls (progress : option writer) (stages : list Stage) : forall st w,
  exists more, calls (ToExecution progress stages st w).1 = calls st ++ more.
Proof.
  induction stages as [|stageFn rest IH]; intros st w.
  - exists []. by rewrite app_nil_r.
  - loop_step stageFn st progress w out e w1.
    set (c := (stageInput stageFn st, (out, e))).
    assert (Hgo : forall st', calls st' = calls st ++ [c] ->
              exists more, calls (ToExecution progress rest st' w1).1 = calls st ++ more).
    { intros st' Hst'. destruct (IH st' w1) as [more Hmore].
      exists (c :: more). by rewrite Hmore, Hst', <- app_assoc. }
    destruct e as [msg|]; [by exists [c] |].
    destruct out; try (by apply Hgo).
    + destruct (isTemporary f); by apply Hgo.
    + destruct (vars st !! Var); [by exists [c] | by apply Hgo].
Qed.

(** A loop that ends without an error has called every stage. *)
Lemma ToExecution_count (progress : option writer) (stages : list Stage) : forall st w,
  err st = None ->
  err (ToExecution progress stages st w).1 = None ->
  length (calls (ToExecution progress stages st w).1) = length (calls st) + length stages.
Proof.
  induction stages as [|stageFn rest IH]; intros st w Hst; [cbn; lia |].
  loop_step stageFn st progress w out e w1.
  assert (Hgo : forall st', err st' = None ->
            length (calls st') = S (length (calls st)) ->
            err (ToExecution progress rest st' w1).1 = None ->
            length (calls (ToExecution progress rest st' w1).1)
            = length (calls st) + length (stageFn :: rest)).
  { intros st' He Hl Hend. rewrite IH by done. cbn [length]. lia. }
  assert (Hl : forall A (l : list A) x, length (l ++ [x]) = S (length l)).
  { intros. rewrite length_app. cbn. lia. }
  destruct e as [msg|]; [done |].
  destruct out; try (by apply Hgo; [| cbn; apply Hl]).
  - destruct (isTemporary f); by apply Hgo; [| cbn; apply Hl].
  - destruct (vars st !! Var); [done | by apply Hgo; [| cbn; apply Hl]].
Qed.

Lemma omap_snoc {A B} (f : A -> option B) (l : list A) (c : A) :
  omap f (l ++ [c]) = omap f l ++ match f c with Some y => [y] | None => [] end.
Proof. rewrite omap_app. f_equal. Qed.

Lemma booked_fresh : booked fresh_run.
Proof. done. Qed.

(** The loop keeps its books: a file handed back without an error joins
    the list of its kind, nothing else does. *)
Lemma ToExecution_booked (progress : option writer) (stages : list Stage) : forall st w,
  booked st -> booked (ToExecution progress stages st w).1.
Proof.
  induction stages as [|stageFn rest IH]; intros st w [Hc Hr]; [done |].
  loop_step stageFn st progress w out e w1.
  assert (Hsame : forall e' vs, fileReturned (stageInput stageFn st, (out, e)) = None ->
            booked (RunState out e' vs (closeFiles st) (removeTempFiles st)
                      (calls st ++ [(stageInput stageFn st, (out, e))]))).
  { intros e' vs Hn. unfold booked, registrations. cbn [closeFiles removeTempFiles calls].
    rewrite omap_snoc, Hn, app_nil_r. done. }
  destruct e as [msg|]; [by apply Hsame; destruct out |].
  destruct out; try (apply IH; by apply Hsame).
  - destruct (isTemporary f) eqn:Ef; apply IH;
      unfold booked, registrations; cbn [closeFiles removeTempFiles calls];
      rewrite omap_snoc, !filter_app; cbn [fileReturned];
      rewrite !filter_cons, !filter_nil;
      repeat case_decide; try congruence;
      rewrite ?app_nil_r; fold (registrations st); by rewrite <- ?Hc, <- ?Hr.
  - destruct (vars st !! Var); [by apply Hsame |].
    apply IH. by apply Hsame.
Qed.

(** ** Cleanup *)





Lemma closeLoop_error (files : list file) : forall e w,
  (closeLoop files e w).1.1 = false ->
  (closeLoop files e w).1.2 = match files with [] => e | _ :: _ => None end.
Proof.
  induction files as [|f files IH]; intros e w; [done |].
  cbn [closeLoop]. destruct (Os.Close f w) as [[msg|] w1]; [done |].
  intros H. rewrite IH by done. by destruct files.
Qed.

Lemma removeLoop_error (files : list file) : forall e w,
  (removeLoop files e w).1.1 = false ->
  (removeLoop files e w).1.2 = match files with [] => e | _ :: _ => None end.
Proof.
  induction files as [|f files IH]; intros e w; [done |].
  cbn [removeLoop]. destruct (Os.Remove (Name f) w) as [[msg|] w1]; [done |].
  intros H. rewrite IH by done. by destruct files.
Qed.

Lemma closeLoop_stops (files : list file) : forall e w,
  (closeLoop files e w).1.1 = true -> is_Some (closeLoop files e w).1.2.
Proof.
  induction files as [|f files IH]; intros e w; cbn [closeLoop]; [done |].
  destruct (Os.Close f w) as [[msg|] w1]; [by eexists | apply IH].
Qed.

Lemma removeLoop_stops (files : list file) : forall e w,
  (removeLoop files e w).1.1 = true -> is_Some (removeLoop files e w).1.2.
Proof.
  induction files as [|f files IH]; intros e w; cbn [removeLoop]; [done |].
  destruct (Os.Remove (Name f) w) as [[msg|] w1]; [by eexists | apply IH].
Qed.

Lemma cleanup_value (st : runState) (w : world) : (cleanup st w).1.1 = input st.
Proof.
  unfold cleanup.
  destruct (closeLoop (closeFiles st) (err st) w) as [[[] e] w1]; [done |].
  by destruct (removeLoop (removeTempFiles st) e w1) as [[? ?] ?].
Qed.

(** The error [Run] returns, case by case: the error of the release that
    failed; the error of the stages when the run tracked no file; nil when
    it tracked a file and every release succeeded. *)
Lemma cleanup_error (st : runState) (w : world) :
  (cleanupStops st w = true -> is_Some (cleanup st w).1.2)
  /\ (cleanupStops st w = false ->
      (cleanup st w).1.2
      = match closeFiles st ++ removeTempFiles st with
        | [] => err st
        | _ :: _ => None
        end).
Proof.
  unfold cleanup, cleanupStops.
  pose proof (closeLoop_stops (closeFiles st) (err st) w) as Hcs.
  pose proof (closeLoop_error (closeFiles st) (err st) w) as Hce.
  destruct (closeLoop (closeFiles st) (err st) w) as [[returned e] w1].
  cbn [fst snd] in *. destruct returned; cbn [orb].
  - split; [intros _; by apply Hcs | done].
  - pose proof (removeLoop_stops (removeTempFiles st) e w1) as Hrs.
    pose proof (removeLoop_error (removeTempFiles st) e w1) as Hre.
    destruct (removeLoop (removeTempFiles st) e w1) as [[returned e2] w2].
    cbn [fst snd] in *. split; [done |].
    intros ->. rewrite Hre, Hce by done.
    by destruct (closeFiles st), (removeTempFiles st).
Qed.


(** ** The error [Run] returns *)

(** C1: the code does not do what the specification says.  In [failingRun] the
    third stage fails with [invalidName]; the run tracks one temporary
    file and removing it succeeds, so no cleanup operation fails; yet
    [Run] returns a nil error: line 70 ([err = os.Remove(f.Name())]) has
    overwritten the stage's error with the nil result of the removal. *)
Theorem stage_error_lost_in_cleanup :
  let st := (ToExecution (Some Discard) failingRun fresh_run blank).1 in
  let w1 := (ToExecution (Some Discard) failingRun fresh_run blank).2 in
  err st = Some invalidName
  /\ removeTempFiles st = [{| ptr := 3; Name := "/tmp/godo-temporary-file3" |}]
  /\ cleanupStops st w1 = false
  /\ (Run None failingRun blank).1 = (Nil, None).
Proof. vm_compute. done. Qed.

(** The part of the sentence the code does keep: a release that fails
    decides the error of the run, whatever the stages returned. *)
Example failed_release_decides_the_error :
  let stages := [Insert (Str "x"); WriteTempFile; passOn; SaveInVar "content"] in
  let st := (ToExecution (Some Discard) stages fresh_run blank).1 in
  err st = Some invalidName
  /\ (Run None stages blank).1.2
     = Some "remove /tmp/godo-temporary-file3: no such file or directory".
Proof. vm_compute. done. Qed.

(** ** Tracked files *)


Example failed_close_in_detail :
  let st := (ToExecution (Some Discard) mixedRun fresh_run flaky).1 in
  let after := (Run None mixedRun flaky).2 in
  closeFiles st = [{| ptr := 3; Name := "/data/report" |}]
  /\ removeTempFiles st = [{| ptr := 4; Name := "/tmp/godo-temporary-file4" |}]
  /\ (Run None mixedRun flaky).1.2 = Some "close /data/report: input/output error"
  /\ disk after !! "/tmp/godo-temporary-file4" = Some "x"
  /\ journal after = [SysOpen "/data/report"; SysTempFile "/tmp/godo-temporary-file4";
                      SysWrite 4; SysClose 4; SysClose 3].
Proof. vm_compute. done. Qed.



(** A temporary file that [WriteTempFile] created but could not write is
    never handed back, hence never tracked: it stays on the disk. *)
Example failed_write_leaves_temporary_file :
  let w := World ∅ ∅ 3 ∅ [] [SysWrite 3] [] [] in
  let r := Run None [Insert (Str "x"); WriteTempFile] w in
  r.1 = (Nil, Some "write /tmp/godo-temporary-file3: input/output error")
  /\ disk r.2 !! "/tmp/godo-temporary-file3" = Some EmptyString
  /\ journal r.2 = [SysTempFile "/tmp/godo-temporary-file3"; SysWrite 3].
Proof. vm_compute. done. Qed.

(** One attempt per tracked entry is not one release per file: a file
    handed back twice is tracked twice.  Here [Split] hands the temporary
    file to both nested runs, each tracks and removes it, the second
    removal fails, and so does the third, by the outer run. *)
Example file_tracked_by_three_runs :
  let r := Run None [Insert (Str "x"); WriteTempFile; Split [] []] blank in
  r.1.2 = Some "remove /tmp/godo-temporary-file3: no such file or directory"
  /\ journal r.2 = [SysTempFile "/tmp/godo-temporary-file3"; SysWrite 3; SysClose 3;
                    SysRemove "/tmp/godo-temporary-file3";
                    SysRemove "/tmp/godo-temporary-file3";
                    SysRemove "/tmp/godo-temporary-file3"].
Proof. vm_compute. done. Qed.

(** ** Variables *)

Lemma SaveInVar_returns (varName : string) (v : value) (progress : option writer)
    (w : world) :
  (fn (SaveInVar varName) v progress w).1.2 = None ->
  fn (SaveInVar varName) v progress w = ((save varName v, None), w).
Proof.
  cbn [fn SaveInVar].
  by destruct (String.eqb varName "content" || String.eqb varName "file"
               || negb (matchLetters varName)).
Qed.

(** C5.  When the stages [pre] have run without an error and a
    [SaveInVar varName] stage that follows them succeeds, the value of the
    run is the marker [save varName v], [v] being the value [SaveInVar]
    was given: [Run] returns the marker when [SaveInVar] is the last
    stage, and when the name was free the stage after [SaveInVar] is
    called on the marker, in an [interceptExec] envelope with the store if
    that stage is an [Exec]. *)
Theorem SaveInVar_hands_on_the_marker (progress : option writer) (pre : list Stage)
    (varName : string) (w : world) :
  let st := (ToExecution (orDiscard progress) pre fresh_run w).1 in
  let w1 := (ToExecution (orDiscard progress) pre fresh_run w).2 in
  let marker := save varName (input st) in
  err st = None ->
  (fn (SaveInVar varName) (stageInput (SaveInVar varName) st) (orDiscard progress) w1).1.2
  = None ->
  (Run progress (pre ++ [SaveInVar varName]) w).1.1 = marker
  /\ forall next rest,
       vars st !! varName = None ->
       fst <$> calls (ToExecution (orDiscard progress)
                        (pre ++ SaveInVar varName :: next :: rest) fresh_run w).1
               !! S (length pre)
       = Some (if isExec next
               then interceptExec marker (<[varName := input st]> (vars st))
               else marker).
Proof.
  intros st w1 marker Hst Hok.
  pose proof (ToExecution_count (orDiscard progress) pre fresh_run w eq_refl Hst) as Hlen.
  fold st in Hlen. cbn [calls fresh_run length] in Hlen.
  apply SaveInVar_returns in Hok.
  change (stageInput (SaveInVar varName) st) with (input st) in Hok.
  split.
  - unfold Run. rewrite ToExecution_app by done.
    destruct (ToExecution (orDiscard progress) pre fresh_run w) as [st' w'] eqn:E.
    subst st w1. cbn [fst snd] in *. rewrite Hst.
    cbn [ToExecution]. change (stageInput (SaveInVar varName) st') with (input st').
    rewrite Hok. destruct (vars st' !! varName); cbn [ToExecution]; apply cleanup_value.
  - intros next rest Hfree. rewrite ToExecution_app by done.
    destruct (ToExecution (orDiscard progress) pre fresh_run w) as [st' w'] eqn:E.
    subst st w1. cbn [fst snd] in *. rewrite Hst.
    cbn [ToExecution]. change (stageInput (SaveInVar varName) st') with (input st').
    rewrite Hok, Hfree.
    set (st2 := RunState _ _ _ _ _ _).
    destruct (fn next (stageInput next st2) (orDiscard progress) w') as [[out e] w2].
    set (c := (stageInput next st2, (out, e))).
    assert (Hhere : forall more,
              fst <$> (calls st2 ++ [c] ++ more) !! S (length pre)
              = Some (stageInput next st2)).
    { intros more. subst st2. cbn [calls]. rewrite <- !app_assoc. cbn [app].
      rewrite lookup_app_r by lia. rewrite Hlen, Nat.add_0_l.
      replace (S (length pre) - length pre) with 1 by lia. done. }
    assert (Hgo : forall st3 w3, calls st3 = calls st2 ++ [c] ->
              fst <$> calls (ToExecution (orDiscard progress) rest st3 w3).1 !! S (length pre)
              = Some (stageInput next st2)).
    { intros st3 w3 H3.
      destruct (ToExecution_calls (orDiscard progress) rest st3 w3) as [more ->].
      rewrite H3, <- app_assoc. apply Hhere. }
    change (if isExec next then interceptExec marker (<[varName:=input st']> (vars st')) else marker)
      with (stageInput next st2).
    specialize (Hhere []). rewrite app_nil_r in Hhere.
    destruct e as [msg|]; [exact Hhere |].
    destruct out; try (by apply Hgo).
    + destruct (isTemporary f); by apply Hgo.
    + destruct (vars st2 !! Var); [exact Hhere | by apply Hgo].
Qed.

Lemma SaveInVar_hands_on_the_marker_witness :
  err (ToExecution (orDiscard None) [Insert (Str "hello")] fresh_run blank).1 = None
  /\ (Run None ([Insert (Str "hello")] ++ [SaveInVar "greeting"]) blank).1.1
     = save "greeting" (Str "hello")
  /\ fst <$> calls (ToExecution (orDiscard None)
                      ([Insert (Str "hello")] ++ SaveInVar "greeting"
                         :: ExecStage transcript 0 :: []) fresh_run blank).1 !! 2
     = Some (interceptExec (save "greeting" (Str "hello")) {["greeting" := Str "hello"]}).
Proof.
  split; [reflexivity |].
  destruct (SaveInVar_hands_on_the_marker None [Insert (Str "hello")] "greeting" blank
              eq_refl eq_refl) as [Hlast Hnext].
  split; [exact Hlast |].
  exact (Hnext (ExecStage transcript 0) [] eq_refl).
Defined.

(** The marker has no text: an [Exec] right after [SaveInVar] leaves
    [#{content}] as it is, where an [Insert] in between restores it. *)
Example marker_is_not_content :
  let (exec, w) := Exec transcript "echo #{content}" blank in
  result (Run None [Insert (Str "hello"); SaveInVar "greeting"; exec] w)
  = (Bytes "echo #{content}", None).
Proof. vm_compute. reflexivity. Qed.



(** What [Run] then returns is the loop's error after cleanup: the
    duplicate-variable error when the run tracks no file
    ([test_duplicate_var]), nil when it tracks one and releases it. *)
Example second_bind_after_a_temporary_file :
  let stages := [Insert (Str "x"); WriteTempFile; SaveInVar "t"; SaveInVar "t"] in
  err (ToExecution (Some Discard) stages fresh_run blank).1
  = Some "variable: t already exists"
  /\ (Run None stages blank).1.2 = None.
Proof. vm_compute. done. Qed.

(** ** [Split] *)


(** The branches do not see each other's bindings, nor those of the run
    around them: [a] is bound outside, in the left branch and in the right
    branch, and no bind is a second one. *)
Example Split_branches_bind_apart :
  result (Run None [Insert (Str "v"); SaveInVar "a"; Insert (Str "w");
                    Split [SaveInVar "a"] [SaveInVar "a"]] blank)
  = (SplitResult (save "a" (Str "w")) (save "a" (Str "w")), None).
Proof. vm_compute. reflexivity. Qed.

(** A left branch that fails: the right branch leaves no trace. *)
Example Split_left_failure_skips_right :
  let r := Run None [Insert (Str "v");
                     Split [SaveInVar "content"] [WriteFile "/data/right"]] blank in
  r.1 = (Str "v", Some invalidName) /\ journal r.2 = [].
Proof. vm_compute. done. Qed.

(** * Further properties of the engine *)

(** ** The stage loop and what [Run] returns *)

(** X1.  Once the stage loop has ended with an error on the stages [xs],
    whatever stages follow them are never called: [Run] on [xs ++ ys]
    returns what [Run] on [xs] returns and leaves the same world. *)
Theorem stages_after_a_failure_do_not_run (progress : option writer)
    (xs ys : list Stage) (w : world) :
  is_Some (err (ToExecution (orDiscard progress) xs fresh_run w).1) ->
  Run progress (xs ++ ys) w = Run progress xs w.
Proof.
  intros [e He]. unfold Run. rewrite ToExecution_app by done.
  destruct (ToExecution (orDiscard progress) xs fresh_run w) as [st w1].
  cbn [fst] in He. by rewrite He.
Qed.

Lemma stages_after_a_failure_do_not_run_witness :
  is_Some (err (ToExecution (orDiscard None) [Insert (Str "hello"); SaveInVar "content"]
                  fresh_run blank).1)
  /\ Run None ([Insert (Str "hello"); SaveInVar "content"] ++ [WriteTempFile]) blank
     = Run None [Insert (Str "hello"); SaveInVar "content"] blank.
Proof.
  assert (H : is_Some (err (ToExecution (orDiscard None)
                              [Insert (Str "hello"); SaveInVar "content"] fresh_run blank).1)).
  { vm_compute. by eexists. }
  split; [exact H |].
  exact (stages_after_a_failure_do_not_run None [Insert (Str "hello"); SaveInVar "content"]
           [WriteTempFile] blank H).
Defined.

Lemma ToExecution_store_grows (progress : option writer) (stages : list Stage) :
  forall st w, vars st ⊆ vars (ToExecution progress stages st w).1.
Proof.
  induction stages as [|stageFn rest IH]; intros st w; [done |].
  loop_step stageFn st progress w out e w1.
  destruct e as [msg|]; [done |].
  destruct out; try (by etrans; [| apply IH]).
  - destruct (isTemporary f); by etrans; [| apply IH].
  - destruct (vars st !! Var) eqn:E; [done |].
    etrans; [| apply IH]. cbn [vars]. by apply insert_subseteq.
Qed.

(** X4.  A variable that is bound keeps its value to the end of the stage
    loop, whatever the stages that follow do. *)
Theorem bound_variable_keeps_its_value (progress : option writer) (stages : list Stage)
    (st : runState) (w : world) (k : string) (v : value) :
  vars st !! k = Some v ->
  vars (ToExecution progress stages st w).1 !! k = Some v.
Proof.
  intros Hk. eapply lookup_weaken; [exact Hk | apply ToExecution_store_grows].
Qed.

Lemma bound_variable_keeps_its_value_witness :
  vars bound !! "myVar" = Some (Str "hello")
  /\ vars (ToExecution (Some Discard) [Insert (Str "other"); SaveInVar "second"] bound blank).1
       !! "myVar" = Some (Str "hello").
Proof.
  assert (Hb : vars bound !! "myVar" = Some (Str "hello")) by (by vm_compute).
  split; [exact Hb |].
  exact (bound_variable_keeps_its_value (Some Discard)
           [Insert (Str "other"); SaveInVar "second"] bound blank "myVar" (Str "hello") Hb).
Defined.

Lemma list_to_map_snoc_first (l : list (string * value)) (k : string) (v : value) :
  (list_to_map (l ++ [(k, v)]) : gmap string value)
  = match (list_to_map l : gmap string value) !! k with
    | Some _ => list_to_map l
    | None => <[k := v]> (list_to_map l)
    end.
Proof.
  induction l as [|[k' v'] l IH].
  - cbn. by rewrite lookup_empty.
  - cbn [app list_to_map foldr]. fold (list_to_map (M := gmap string value) (l ++ [(k, v)])).
    fold (list_to_map (M := gmap string value) l). rewrite IH.
    destruct (decide (k' = k)) as [->|Hne].
    + rewrite lookup_insert_eq.
      destruct (list_to_map l !! k); [done |]. by rewrite insert_insert_eq.
    + rewrite lookup_insert_ne by done.
      destruct (list_to_map l !! k); [done |]. by apply insert_insert_ne.
Qed.

Lemma ToExecution_storeOfMarkers (progress : option writer) (stages : list Stage) :
  forall st w, storeOfMarkers st -> storeOfMarkers (ToExecution progress stages st w).1.
Proof.
  induction stages as [|stageFn rest IH]; intros st w Hst; [done |].
  loop_step stageFn st progress w out e w1.
  assert (Hsame : forall e' files temps,
            markerReturned (stageInput stageFn st, (out, e)) = None ->
            storeOfMarkers (RunState out e' (vars st) files temps
                              (calls st ++ [(stageInput stageFn st, (out, e))]))).
  { intros e' files temps Hn. unfold storeOfMarkers, markers. cbn [vars calls].
    rewrite omap_snoc, Hn, app_nil_r. exact Hst. }
  destruct e as [msg|]; [by apply Hsame; destruct out |].
  destruct out; try (apply IH; by apply Hsame).
  - destruct (isTemporary f); apply IH; by apply Hsame.
  - assert (Hmap : (list_to_map (markers st ++ [(Var, out)]) : gmap string value)
                   = match vars st !! Var with
                     | Some _ => vars st
                     | None => <[Var := out]> (vars st)
                     end).
    { rewrite list_to_map_snoc_first. unfold storeOfMarkers in Hst. by rewrite <- Hst. }
    unfold markers in Hmap.
    destruct (vars st !! Var) eqn:E; [cbn [fst] | apply IH];
      unfold storeOfMarkers, markers; cbn [vars calls];
      rewrite omap_snoc; cbn [markerReturned]; by rewrite Hmap.
Qed.

(** X5.  At the end of the stage loop the store is exactly the map of the
    markers the stage calls handed back, the first marker of each name
    winning. *)
Theorem store_is_first_marker_of_each_name (progress : option writer)
    (stages : list Stage) (w : world) :
  let st := (ToExecution progress stages fresh_run w).1 in
  vars st = list_to_map (markers st).
Proof. apply ToExecution_storeOfMarkers. done. Qed.

(** X3.  A run in which no stage handed back a file returns the value and
    the error of its stage loop unchanged, and cleanup touches nothing:
    the world is the one the last stage call left. *)
Theorem run_without_files_returns_the_loop_result (progress : option writer)
    (stages : list Stage) (w : world) :
  let st := (ToExecution (orDiscard progress) stages fresh_run w).1 in
  let w1 := (ToExecution (orDiscard progress) stages fresh_run w).2 in
  registrations st = [] ->
  Run progress stages w = ((input st, err st), w1).
Proof.
  intros st w1 Hnone. unfold Run.
  destruct (ToExecution_booked (orDiscard progress) stages fresh_run w booked_fresh)
    as [Hc Hr].
  fold st in Hc, Hr. rewrite Hnone in Hc, Hr. subst st w1.
  destruct (ToExecution (orDiscard progress) stages fresh_run w) as [st w1].
  cbn [fst snd] in *. unfold cleanup. by rewrite Hc, Hr.
Qed.

Lemma run_without_files_returns_the_loop_result_witness :
  registrations (ToExecution (orDiscard None) [Insert (Str "hello"); SaveInVar "content"]
                   fresh_run blank).1 = []
  /\ (Run None [Insert (Str "hello"); SaveInVar "content"] blank).1 = (Nil, Some invalidName).
Proof.
  split; [reflexivity |].
  by rewrite (run_without_files_returns_the_loop_result None
                [Insert (Str "hello"); SaveInVar "content"] blank eq_refl).
Defined.

Lemma ToExecution_returnsLast (progress : option writer) (stages : list Stage) :
  forall st w, returnsLast st -> returnsLast (ToExecution progress stages st w).1.
Proof.
  induction stages as [|stageFn rest IH]; intros st w Hst; [done |].
  loop_step stageFn st progress w out e w1.
  assert (Hlast : forall e' vs files temps,
            returnsLast (RunState out e' vs files temps
                           (calls st ++ [(stageInput stageFn st, (out, e))]))).
  { intros. unfold returnsLast, lastReturned. cbn [calls input]. by rewrite last_snoc. }
  destruct e as [msg|]; [apply Hlast |].
  destruct out; try (apply IH; apply Hlast).
  - destruct (isTemporary f); apply IH; apply Hlast.
  - destruct (vars st !! Var); [apply Hlast | apply IH; apply Hlast].
Qed.

(** X2.  The value [Run] returns is the value the last stage it called
    returned, whether that call failed or not, and nil when no stage was
    called; cleanup never changes it. *)
Theorem Run_returns_the_last_output (progress : option writer) (stages : list Stage)
    (w : world) :
  (Run progress stages w).1.1
  = lastReturned (ToExecution (orDiscard progress) stages fresh_run w).1.
Proof.
  unfold Run.
  pose proof (ToExecution_returnsLast (orDiscard progress) stages fresh_run w eq_refl) as H.
  destruct (ToExecution (orDiscard progress) stages fresh_run w) as [st w1].
  cbn [fst] in *. by rewrite cleanup_value.
Qed.

Lemma ToExecution_names (progress : option writer) (stages : list Stage) :
  Forall bindsAcceptedNames stages ->
  forall st w,
    (forall k, is_Some (vars st !! k) -> acceptedName k = true) ->
    forall k, is_Some (vars (ToExecution progress stages st w).1 !! k) ->
              acceptedName k = true.
Proof.
  induction 1 as [|stageFn rest Hs Hrest IH]; intros st w Hst; [done |].
  cbn [ToExecution].
  pose proof (Hs (stageInput stageFn st) progress w) as Hsafe.
  destruct (fn stageFn (stageInput stageFn st) progress w) as [[out e] w1].
  destruct e as [msg|]; [done |].
  destruct out; try (by apply IH).
  - destruct (isTemporary f); by apply IH.
  - destruct (vars st !! Var) eqn:E; [done |].
    apply IH. cbn [vars]. intros k Hk.
    destruct (decide (Var = k)) as [<-|Hne].
    + by eapply Hsafe.
    + rewrite lookup_insert_ne in Hk by done. by apply Hst.
Qed.

(** X6.  When the only markers the stages hand back carry names that
    [SaveInVar] accepts (as do [SaveInVar] itself and the other stages of
    the package), every name in the store is made of letters only and is
    neither [content] nor [file]. *)
Theorem store_names_are_accepted (progress : option writer) (stages : list Stage)
    (w : world) (k : string) :
  Forall bindsAcceptedNames stages ->
  is_Some (vars (ToExecution progress stages fresh_run w).1 !! k) ->
  matchLetters k = true /\ k ≠ "content" /\ k ≠ "file".
Proof.
  intros Hstages Hk.
  assert (Hacc : acceptedName k = true).
  { eapply ToExecution_names; [exact Hstages | | exact Hk].
    intros k' [v Hv]. cbn in Hv. by rewrite lookup_empty in Hv. }
  unfold acceptedName in Hacc.
  apply andb_prop in Hacc as [[Hl Hc]%andb_prop Hf].
  apply negb_true_iff, String.eqb_neq in Hc, Hf. done.
Qed.

Lemma SaveInVar_binds_accepted (varName : string) : bindsAcceptedNames (SaveInVar varName).
Proof.
  intros input progress w Var Val w'. cbn [fn SaveInVar]. unfold acceptedName.
  destruct (String.eqb varName "content") eqn:Ec; [done |].
  destruct (String.eqb varName "file") eqn:Ef; [done |].
  destruct (matchLetters varName) eqn:El; [| done].
  cbn. intros [= <- _ _]. by rewrite El, Ec, Ef.
Qed.

Lemma Insert_binds_accepted (val : value) :
  (forall Var Val, val ≠ save Var Val) -> bindsAcceptedNames (Insert val).
Proof.
  intros Hval input progress w Var Val w'. cbn [fn Insert]. intros [= H _].
  by destruct (Hval Var Val).
Qed.

Lemma Split_binds_accepted (left right : list Stage) : bindsAcceptedNames (Split left right).
Proof.
  intros input progress w Var Val w'. cbn [fn Split].
  destruct (Run progress (Insert input :: left) w) as [[l [e|]] w1]; [done |].
  by destruct (Run progress (Insert input :: right) w1) as [[r [e|]] w2].
Qed.

Lemma ExcludeLines_binds_accepted (separator : string) (exclusions : list string) :
  bindsAcceptedNames (ExcludeLines separator exclusions).
Proof. intros input progress w Var Val w'. cbn [fn ExcludeLines]. done. Qed.

Lemma ExecStage_binds_accepted (bash : string -> world -> process * world) (closure : nat) :
  bindsAcceptedNames (ExecStage bash closure).
Proof.
  intros arg progress w Var Val w'. cbn [fn ExecStage]. unfold ExecFunc1.
  destruct arg as [| | | | | |d Vars|]; try done.
  destruct (rangeMap Vars w) as [entries w1].
  destruct (substitute _ d entries) as [cmd [e|]]; [done |].
  unfold doExecute. destruct (bash _ _) as [p ran].
  destruct (getwd p); [done |]. destruct (stdoutPipe p); [done |].
  destruct (stderrPipe p); [done |]. destruct (start p); [done |].
  destruct (wait p); [done |]. by destruct (_ || _).
Qed.

Lemma WriteTempFile_binds_accepted : bindsAcceptedNames WriteTempFile.
Proof.
  intros input progress w Var Val w'. cbn [fn WriteTempFile].
  destruct input; try done;
    (destruct (Ioutil.TempFile temporaryFilePrefix w) as [[[f|] [e|]] w1]; try done;
     match goal with |- context [Os.Write f ?c ?w0] =>
       destruct (Os.Write f c w0) as [[e|] w2]; [done |] end;
     match goal with |- context [Os.Close f ?w0] =>
       by destruct (Os.Close f w0) as [[e|] w3] end).
Qed.

Lemma OpenFile_hands_back_no_marker (name : string) (flag : Z) (w w' : world)
    (Var : string) (Val : value) :
  Os.OpenFile name flag w ≠ ((save Var Val, None), w').
Proof.
  unfold Os.OpenFile. destruct (ioError _ _); [done |].
  destruct (disk _ !! name); [done |]. by destruct (Z.testbit flag 6).
Qed.

Lemma LoadFileHandler_binds_accepted (name : string) (flag : Z) (perm : nat) :
  bindsAcceptedNames (LoadFileHandler name flag perm).
Proof.
  intros arg progress w Var Val w'. cbn [fn LoadFileHandler].
  intros H. by apply OpenFile_hands_back_no_marker in H.
Qed.

Lemma ReadFile_binds_accepted (fromFile : string) : bindsAcceptedNames (ReadFile fromFile).
Proof.
  intros arg progress w Var Val w'. cbn [fn ReadFile]. unfold Ioutil.ReadFile.
  destruct (ioError _ _); [done |]. by destruct (disk _ !! fromFile).
Qed.

Lemma WriteFile_binds_accepted (toFile : string) : bindsAcceptedNames (WriteFile toFile).
Proof.
  intros arg progress w Var Val w'. cbn [fn WriteFile].
  destruct arg; try done;
    (match goal with |- context [Ioutil.WriteFile toFile ?c w] =>
       destruct (Ioutil.WriteFile toFile c w) as [[e|] w1]; [done |] end;
     intros H; by apply OpenFile_hands_back_no_marker in H).
Qed.

Lemma store_names_are_accepted_witness :
  Forall bindsAcceptedNames [Insert (Str "hello"); SaveInVar "myVar"]
  /\ matchLetters "myVar" = true /\ "myVar" ≠ "content" /\ "myVar" ≠ "file".
Proof.
  assert (Hs : Forall bindsAcceptedNames [Insert (Str "hello"); SaveInVar "myVar"]).
  { repeat constructor; [by apply Insert_binds_accepted | apply SaveInVar_binds_accepted]. }
  split; [exact Hs |].
  apply (store_names_are_accepted (Some Discard) [Insert (Str "hello"); SaveInVar "myVar"]
           blank "myVar" Hs).
  vm_compute. by eexists.
Defined.

(** X7.  A [Split] stage changes neither the store nor the lists of
    tracked files of the run it is a stage of: what its branches bind and
    track stays in the nested runs. *)
Theorem Split_keeps_the_outer_books (progress : option writer) (left right : list Stage)
    (st : runState) (w : world) :
  let st' := (ToExecution progress [Split left right] st w).1 in
  vars st' = vars st
  /\ closeFiles st' = closeFiles st
  /\ removeTempFiles st' = removeTempFiles st.
Proof.
  cbn [ToExecution]. change (stageInput (Split left right) st) with (input st).
  cbn [fn Split].
  destruct (Run progress (Insert (input st) :: left) w) as [[l [e|]] w1]; [done |].
  by destruct (Run progress (Insert (input st) :: right) w1) as [[r [e|]] w2].
Qed.

(** ** [ExcludeLines], line by line *)

Lemma append_empty_r (a : string) : a +:+ EmptyString = a.
Proof. induction a as [|x a IH]; [done |]. rewrite append_cons. by rewrite IH. Qed.

Lemma length_append (a s : string) :
  String.length (a +:+ s) = String.length a + String.length s.
Proof. induction a as [|x a IH]; [done |]. rewrite append_cons. cbn. by rewrite IH. Qed.

Lemma prefix_empty (s : string) : String.prefix EmptyString s = true.
Proof. by destruct s. Qed.

Lemma prefix_split (a s : string) :
  String.prefix a s = true -> exists rest, s = a +:+ rest.
Proof.
  revert s. induction a as [|x a IH]; intros s H; [by exists s |].
  destruct s as [|y s]; [done |].
  destruct (decide (x = y)) as [->|Hne].
  - rewrite prefix_same in H. destruct (IH s H) as [rest ->]. by exists rest.
  - by rewrite prefix_differ in H.
Qed.

Lemma Contains_occursIn (s substr : string) :
  GoStrings.Contains s substr = true <-> occursIn substr s.
Proof.
  split.
  - induction s as [|c s IH]; cbn [GoStrings.Contains]; intros H.
    + rewrite orb_false_r in H. apply prefix_split in H as [rest Hr].
      exists EmptyString, rest. exact Hr.
    + apply orb_prop in H as [H|H].
      * apply prefix_split in H as [rest Hr]. by exists EmptyString, rest.
      * destruct (IH H) as (a & b & ->). by exists (String c a), b.
  - intros (a & b & ->). induction a as [|c a IH].
    + change (EmptyString +:+ substr +:+ b) with (substr +:+ b).
      destruct (substr +:+ b) eqn:E; cbn [GoStrings.Contains];
        rewrite <- E, prefix_append; done.
    + rewrite append_cons. cbn [GoStrings.Contains]. rewrite IH. apply orb_true_r.
Qed.

Lemma splitFrom_skip (sep a piece s : string) :
  GoStrings.splitFrom sep (String.length a) piece (a +:+ s)
  = GoStrings.splitFrom sep 0 piece s.
Proof.
  induction a as [|x a IH]; [by destruct s |].
  rewrite append_cons. exact IH.
Qed.

Lemma splitFrom_nonempty (sep : string) (s : string) :
  forall skip piece, GoStrings.splitFrom sep skip piece s ≠ [].
Proof.
  induction s as [|c s IH]; intros skip piece; cbn [GoStrings.splitFrom]; [done |].
  destruct skip; [| apply IH]. destruct (String.prefix sep _); [done | apply IH].
Qed.

Lemma Join_cons (e : string) (rest : list string) (sep : string) :
  rest ≠ [] -> GoStrings.Join (e :: rest) sep = e +:+ sep +:+ GoStrings.Join rest sep.
Proof. by destruct rest. Qed.

Lemma Join_splitFrom (sep : string) :
  sep ≠ EmptyString ->
  forall n s piece, String.length s <= n ->
    GoStrings.Join (GoStrings.splitFrom sep 0 piece s) sep = piece +:+ s.
Proof.
  intros Hsep. induction n as [|n IH]; intros s piece Hlen.
  - destruct s; [| cbn in Hlen; lia]. cbn. by rewrite append_empty_r.
  - destruct s as [|c s]; [cbn; by rewrite append_empty_r |].
    cbn [GoStrings.splitFrom].
    destruct (String.prefix sep (String c s)) eqn:E.
    + apply prefix_split in E as [rest Hrest].
      destruct sep as [|x sep']; [done |].
      rewrite append_cons in Hrest. injection Hrest as -> ->.
      match goal with |- context [String.length (String ?y sep') - 1] =>
        replace (String.length (String y sep') - 1) with (String.length sep')
          by (cbn [String.length]; lia) end.
      rewrite splitFrom_skip.
      rewrite Join_cons by apply splitFrom_nonempty.
      rewrite IH. { by rewrite append_cons. }
      cbn [String.length] in Hlen. rewrite length_append in Hlen. lia.
    + rewrite IH by (cbn [String.length] in Hlen; lia).
      by rewrite append_assoc.
Qed.

Lemma Join_explode (s : string) : GoStrings.Join (GoStrings.explode s) EmptyString = s.
Proof.
  induction s as [|c s IH]; [done |].
  cbn [GoStrings.explode]. destruct (GoStrings.explode s) eqn:E.
  - destruct s; [done | discriminate E].
  - rewrite Join_cons by done. by rewrite IH.
Qed.

Lemma Join_Split (s sep : string) : GoStrings.Join (GoStrings.Split s sep) sep = s.
Proof.
  destruct sep as [|x sep]; [apply Join_explode |].
  unfold GoStrings.Split. by rewrite (Join_splitFrom (String x sep) ltac:(done) (String.length s) s EmptyString (Nat.le_refl _)).
Qed.

Lemma keepLines_nothing_excluded (content : list string) : keepLines content [] = content.
Proof. induction content as [|line rest IH]; [done |]. cbn. by rewrite IH. Qed.

(** X10.  With no exclusion, [ExcludeLines] hands back the text it was
    given, as a string, for every separator (the empty one too): joining
    what [strings.Split] cut gives the text back. *)
Theorem ExcludeLines_without_exclusions (separator data : string)
    (progress : option writer) (w : world) :
  fn (ExcludeLines separator []) (Str data) progress w = ((Str data, None), w)
  /\ fn (ExcludeLines separator []) (Bytes data) progress w = ((Str data, None), w).
Proof.
  cbn [fn ExcludeLines]. by rewrite keepLines_nothing_excluded, Join_Split.
Qed.

Lemma containsAny_spec (line : string) (exclusions : list string) :
  containsAny line exclusions = true <-> exists x, x ∈ exclusions /\ occursIn x line.
Proof.
  induction exclusions as [|x rest IH]; cbn [containsAny].
  - split; [done |]. intros (x & Hx & _). by apply elem_of_nil in Hx.
  - destruct (GoStrings.Contains line x) eqn:E.
    + split; [| done]. intros _. exists x. split; [left |]. by apply Contains_occursIn.
    + rewrite IH. split.
      * intros (y & Hy & Hocc). exists y. split; [by right | done].
      * intros (y & [->|Hy]%elem_of_cons & Hocc).
        -- apply Contains_occursIn in Hocc. congruence.
        -- by exists y.
Qed.




(** X12.  An empty exclusion excludes everything: the empty string occurs
    in every line, so the stage returns the empty string whatever its
    input. *)
Theorem ExcludeLines_empty_exclusion (separator : string) (exclusions : list string)
    (input : value) (progress : option writer) (w : world) :
  EmptyString ∈ exclusions ->
  fn (ExcludeLines separator exclusions) input progress w = ((Str EmptyString, None), w).
Proof.
  intros Hin. cbn [fn ExcludeLines].
  assert (Hall : forall content, keepLines content exclusions = []).
  { induction content as [|line rest IH]; [done |]. cbn [keepLines].
    assert (containsAny line exclusions = true) as ->; [| exact IH].
    apply containsAny_spec. exists EmptyString. split; [done |].
    by exists EmptyString, line. }
  by rewrite Hall.
Qed.

Lemma ExcludeLines_empty_exclusion_witness :
  EmptyString ∈ ["hi"; EmptyString]
  /\ fn (ExcludeLines "|" ["hi"; EmptyString]) (Str "hi|you") None blank
     = ((Str EmptyString, None), blank).
Proof.
  assert (H : EmptyString ∈ ["hi"; EmptyString]).
  { apply list_elem_of_further, list_elem_of_here. }
  split; [exact H |].
  exact (ExcludeLines_empty_exclusion "|" ["hi"; EmptyString] (Str "hi|you") None blank H).
Defined.

(** ** [Exec] and [doExecute] on plain texts *)



Lemma wellFormed_resolve (m : gmap string value) (t : list token) :
  (forall k v, m !! k = Some v -> matchLetters k = true /\ plainText v = true) ->
  wellFormed t = true -> wellFormed (map (resolve m) t) = true.
Proof.
  intros Hm. induction t as [|tok t IH]; [done |].
  cbn [map wellFormed forallb]. intros [Htok Ht]%andb_prop.
  fold (wellFormed (map (resolve m) t)). rewrite IH by done. rewrite andb_true_r.
  destruct tok as [l|name]; [done |]. cbn [resolve].
  destruct (m !! name) as [v|] eqn:E; [| done]. cbn.
  destruct (Hm name v E) as [_ Hv]. unfold plainText in Hv.
  by destruct (textOf v).
Qed.

Lemma fillToken_settled (d : value) (m : gmap string value) (tok : token) :
  fillToken d m (resolve m (plugAmbient d tok)) = renderToken (resolve m (plugAmbient d tok)).
Proof.
  destruct tok as [l|name]; [by destruct d |].
  assert (Hrest : fillToken d m (resolve m (Hole name)) = renderToken (resolve m (Hole name))
                  \/ ambient d name ≠ None).
  { cbn [resolve]. destruct (m !! name ≫= textOf) eqn:E; [by left |].
    destruct (ambient d name) eqn:Ea; [by right |]. left.
    cbn [fillToken renderToken]. unfold meaning. by rewrite Ea, E. }
  destruct d; cbn [plugAmbient plug]; cbn [ambient] in Hrest;
    try (destruct Hrest as [H|H]; [exact H | done]);
    (destruct (String.eqb name _); [done |]);
    (destruct Hrest as [H|H]; [exact H | done]).
Qed.

Lemma fill_settled (d : value) (m : gmap string value) (t : list token) :
  fill d m (map (resolve m) (map (plugAmbient d) t))
  = render (map (resolve m) (map (plugAmbient d) t)).
Proof.
  induction t as [|tok t IH]; [done |].
  cbn [map fill render]. by rewrite fillToken_settled, IH.
Qed.

(** X14.  On plain texts the text [Exec] resolves is settled: substituting
    again, with the same previous output and the same store, in any
    order, changes nothing.  (So the second of two invocations with one
    input and one store runs the same command as the first.) *)
Theorem resolved_text_resolves_to_itself (template : list token) (d : value)
    (m : gmap string value) (n n' : nat) :
  wellFormed template = true ->
  (forall k v, m !! k = Some v -> matchLetters k = true /\ plainText v = true) ->
  (forall s, textOf d = Some s -> hashFree s = true) ->
  let resolved := (substitute (render template) d (arrange n (map_to_list m))).1 in
  resolved = fill d m template
  /\ substitute resolved d (arrange n' (map_to_list m)) = (resolved, None).
Proof.
  intros Ht Hm Hd resolved.
  assert (Hr : resolved = fill d m template).
  { subst resolved. unfold substitute. rewrite replaceAmbient_render by done.
    rewrite replaceVars_arranged; [| by apply plugAmbient_wellFormed | done].
    by rewrite fill_resolve. }
  split; [exact Hr |]. rewrite Hr, <- fill_resolve.
  set (t' := map (resolve m) (map (plugAmbient d) template)).
  assert (Ht' : wellFormed t' = true).
  { by apply wellFormed_resolve, plugAmbient_wellFormed. }
  unfold substitute. rewrite replaceAmbient_render by done.
  rewrite replaceVars_arranged; [| by apply plugAmbient_wellFormed | done].
  rewrite fill_resolve. subst t'. by rewrite fill_settled.
Qed.

Lemma resolved_text_resolves_to_itself_witness :
  wellFormed exampleTemplate = true
  /\ substitute "X-Z-/tmp/y" (Str "Z") (arrange 0 (map_to_list exampleStore))
     = ("X-Z-/tmp/y", None).
Proof.
  assert (Hd : forall s, textOf (Str "Z") = Some s -> hashFree s = true) by (by intros s [= <-]).
  split; [reflexivity |].
  destruct (resolved_text_resolves_to_itself exampleTemplate (Str "Z") exampleStore 1 0
              eq_refl exampleStore_plain Hd) as [Hr Hs].
  rewrite Hr in Hs. exact Hs.
Defined.


(** ** [Split] on its own, and the file stages *)

Lemma Run_Insert_alone (progress : option writer) (V : value) (w : world) :
  (forall f, V ≠ File f) ->
  Run progress [Insert V] w
  = ((V, None), ReportProgress (orDiscard progress) "Inserting value into pipeline" w).
Proof.
  intros HV. unfold Run. cbn [ToExecution].
  change (stageInput (Insert V) fresh_run) with Nil. cbn [fn Insert].
  destruct V; try done. by destruct (HV f).
Qed.

(** X8.  [Split] with two empty branches, on a value that is not a file,
    returns the pair of that value with itself and no error, and only
    reports progress. *)
Theorem Split_of_nothing_doubles_the_value (progress : option writer) (V : value)
    (w : world) :
  (forall f, V ≠ File f) ->
  fn (Split [] []) V progress w
  = ((SplitResult V V, None),
     ReportProgress (orDiscard progress) "Inserting value into pipeline"
       (ReportProgress (orDiscard progress) "Inserting value into pipeline" w)).
Proof.
  intros HV. cbn [fn Split]. rewrite !Run_Insert_alone by done. done.
Qed.

Lemma Split_of_nothing_doubles_the_value_witness :
  (forall f, Str "v" ≠ File f)
  /\ (fn (Split [] []) (Str "v") None blank).1 = (SplitResult (Str "v") (Str "v"), None).
Proof.
  split; [done |].
  by rewrite (Split_of_nothing_doubles_the_value None (Str "v") blank).
Defined.

Lemma just_opened (n : nat) (o : gset nat) : n ∈ o ∪ {[n]}.
Proof. apply elem_of_union_r. by apply elem_of_singleton. Qed.

Lemma just_closed (n : nat) (o : gset nat) : n ∉ (o ∪ {[n]}) ∖ {[n]}.
Proof. apply not_elem_of_difference. right. by apply elem_of_singleton. Qed.

Lemma no_fault (c : syscall) (w : world) : faults w = [] -> ioError c w = false.
Proof.
  intros H. unfold ioError. rewrite H. apply bool_decide_eq_false_2, not_elem_of_nil.
Qed.

Lemma ReportProgress_keeps (progress : option writer) (msg : string) (w : world) :
  disk (ReportProgress progress msg w) = disk w
  /\ opened (ReportProgress progress msg w) = opened w
  /\ faults (ReportProgress progress msg w) = faults w
  /\ journal (ReportProgress progress msg w) = journal w
  /\ nextFile (ReportProgress progress msg w) = nextFile w.
Proof. by destruct progress as [[]|]. Qed.

Lemma cleanup_one_close (st : runState) (w : world) (f : file) :
  closeFiles st = [f] -> removeTempFiles st = [] ->
  cleanup st w = ((input st, (Os.Close f w).1), (Os.Close f w).2).
Proof.
  intros Hc Hr. unfold cleanup. rewrite Hc, Hr. cbn [closeLoop].
  by destruct (Os.Close f w) as [[e|] w1].
Qed.

Lemma cleanup_one_removal (st : runState) (w : world) (f : file) :
  closeFiles st = [] -> removeTempFiles st = [f] ->
  cleanup st w = ((input st, (Os.Remove (Name f) w).1), (Os.Remove (Name f) w).2).
Proof.
  intros Hc Hr. unfold cleanup. rewrite Hc, Hr. cbn [closeLoop removeLoop].
  by destruct (Os.Remove (Name f) w) as [[e|] w1].
Qed.

Lemma Close_open (f : file) (w : world) :
  faults w = [] -> ptr f ∈ opened w ->
  Os.Close f w = (None, withOpened (opened w ∖ {[ptr f]}) (attempt (SysClose (ptr f)) w)).
Proof.
  intros Hf Ho. unfold Os.Close. rewrite no_fault by done.
  cbn [opened attempt]. by rewrite bool_decide_eq_true_2.
Qed.

Lemma Close_closed (f : file) (w : world) :
  faults w = [] -> ptr f ∉ opened w ->
  (Os.Close f w).1 = Some ("close " +:+ Name f +:+ ": file already closed").
Proof.
  intros Hf Ho. unfold Os.Close. rewrite no_fault by done.
  cbn [opened attempt]. by rewrite bool_decide_eq_false_2.
Qed.

(** X9.  [Split] with two empty branches on an open persistent file
    fails, even when the environment makes nothing fail: the left run
    closes the file at its end, the right run tracks the same file object
    and its close reports [file already closed], which becomes the error
    of the stage. *)
Theorem Split_closes_a_file_twice (progress : option writer) (f : file) (w : world) :
  isTemporary f = false ->
  ptr f ∈ opened w ->
  faults w = [] ->
  (fn (Split [] []) (File f) progress w).1
  = (File f, Some ("close " +:+ Name f +:+ ": file already closed")).
Proof.
  intros Htemp Hopen Hfaults. cbn [fn Split]. unfold Run. cbn [ToExecution].
  change (stageInput (Insert (File f)) fresh_run) with Nil. cbn [fn Insert].
  rewrite Htemp. cbn [ToExecution].
  set (w0 := ReportProgress (orDiscard progress) "Inserting value into pipeline" w).
  destruct (ReportProgress_keeps (orDiscard progress) "Inserting value into pipeline" w)
    as (Hd & Ho & Hf & Hj & Hn). fold w0 in Hd, Ho, Hf, Hj, Hn.
  rewrite !(cleanup_one_close _ _ f) by done.
  rewrite (Close_open f w0) by (congruence || by rewrite Ho).
  cbn [fst snd input].
  set (w1 := withOpened _ _).
  set (w2 := ReportProgress (orDiscard progress) "Inserting value into pipeline" w1).
  destruct (ReportProgress_keeps (orDiscard progress) "Inserting value into pipeline" w1)
    as (Hd2 & Ho2 & Hf2 & Hj2 & Hn2). fold w2 in Hd2, Ho2, Hf2, Hj2, Hn2.
  rewrite (Close_closed f w2); [done | |].
  - rewrite Hf2. subst w1. cbn. congruence.
  - rewrite Ho2. subst w1. cbn. apply not_elem_of_difference. right. by apply elem_of_singleton.
Qed.

Lemma Split_closes_a_file_twice_witness :
  isTemporary {| ptr := 3; Name := "/data/report" |} = false
  /\ 3 ∈ opened serving
  /\ faults serving = []
  /\ (fn (Split [] []) (File {| ptr := 3; Name := "/data/report" |}) None serving).1
     = (File {| ptr := 3; Name := "/data/report" |},
        Some "close /data/report: file already closed").
Proof.
  assert (Ho : 3 ∈ opened serving) by (by vm_compute).
  split; [reflexivity |]. split; [exact Ho |]. split; [reflexivity |].
  exact (Split_closes_a_file_twice None {| ptr := 3; Name := "/data/report" |} serving
           eq_refl Ho eq_refl).
Defined.


Lemma WriteFile_stage_ok (toFile data : string) (input : value)
    (progress : option writer) (w : world) :
  textInput input = Some data ->
  faults w = [] ->
  let h := {| ptr := nextFile w; Name := toFile |} in
  fn (WriteFile toFile) input progress w
  = ((File h, None),
     withNextFile (S (nextFile w))
       (withOpened (opened w ∪ {[nextFile w]})
          (attempt (SysOpen toFile)
             (withDisk (<[toFile := data]> (disk w)) (attempt (SysWriteFile toFile) w))))).
Proof.
  intros Hin Hf h. cbn [fn WriteFile].
  assert (Hw : Ioutil.WriteFile toFile data w
               = (None, withDisk (<[toFile := data]> (disk w))
                          (attempt (SysWriteFile toFile) w))).
  { unfold Ioutil.WriteFile. by rewrite no_fault. }
  destruct input; try discriminate Hin; injection Hin as ->;
    rewrite Hw; unfold Os.Open, Os.OpenFile;
    rewrite no_fault by done; cbn [disk attempt withDisk];
    by rewrite lookup_insert_eq.
Qed.

Lemma Remove_present (name data : string) (w : world) :
  faults w = [] -> disk w !! name = Some data ->
  Os.Remove name w = (None, withDisk (delete name (disk w)) (attempt (SysRemove name) w)).
Proof.
  intros Hf Hd. unfold Os.Remove. rewrite no_fault by done.
  cbn [disk attempt]. by rewrite Hd.
Qed.

Lemma ReadFile_stage_ok (fromFile data : string) (input : value)
    (progress : option writer) (w : world) :
  faults w = [] -> disk w !! fromFile = Some data ->
  (fn (ReadFile fromFile) input progress w).1 = (Bytes data, None)
  /\ disk (fn (ReadFile fromFile) input progress w).2 = disk w
  /\ opened (fn (ReadFile fromFile) input progress w).2 = opened w
  /\ faults (fn (ReadFile fromFile) input progress w).2 = faults w.
Proof.
  intros Hf Hd. cbn [fn ReadFile]. unfold Ioutil.ReadFile.
  destruct (ReportProgress_keeps progress ("Reading content of file: " +:+ fromFile) w)
    as (Hd' & Ho' & Hf' & _).
  rewrite no_fault by (cbn; congruence). cbn [disk attempt].
  rewrite Hd', Hd. cbn. by rewrite Hd', Ho', Hf'.
Qed.

(** X19.  When the environment makes nothing fail, the run of [Insert] of
    a text and [WriteFile toFile] returns the file opened on [toFile] and
    a nil error; at its end the file holds the text and its handle is
    closed, unless the base name of [toFile] starts with the
    temporary-file prefix: then the run has removed the file it was asked
    to write. *)
Theorem WriteFile_in_a_run (progress : option writer) (toFile data : string)
    (v : value) (w : world) :
  textInput v = Some data ->
  faults w = [] ->
  let h := {| ptr := nextFile w; Name := toFile |} in
  let r := Run progress [Insert v; WriteFile toFile] w in
  r.1 = (File h, None)
  /\ disk r.2 !! toFile = (if isTemporary h then None else Some data)
  /\ (isTemporary h = false -> nextFile w ∉ opened r.2).
Proof.
  intros Hin Hf h r. subst r. unfold Run. cbn [ToExecution].
  change (stageInput (Insert v) fresh_run) with Nil. cbn [fn Insert].
  set (w0 := ReportProgress (orDiscard progress) "Inserting value into pipeline" w).
  destruct (ReportProgress_keeps (orDiscard progress) "Inserting value into pipeline" w)
    as (Hd0 & Ho0 & Hf0 & _ & Hn0). fold w0 in Hd0, Ho0, Hf0, Hn0.
  assert (Hstep : forall st, input st = v ->
            fn (WriteFile toFile) (stageInput (WriteFile toFile) st) (orDiscard progress) w0
            = ((File h, None),
               withNextFile (S (nextFile w0))
                 (withOpened (opened w0 ∪ {[nextFile w0]})
                    (attempt (SysOpen toFile)
                       (withDisk (<[toFile := data]> (disk w0))
                          (attempt (SysWriteFile toFile) w0)))))).
  { intros st Hst. change (stageInput (WriteFile toFile) st) with (input st).
    rewrite Hst, (WriteFile_stage_ok toFile data) by (done || congruence).
    subst h. by rewrite Hn0. }
  destruct v; try discriminate Hin; injection Hin as ->;
    cbn [ToExecution]; rewrite Hstep by done;
    (destruct (isTemporary h) eqn:Et; cbn [ToExecution];
     [ rewrite (cleanup_one_removal _ _ h) by done;
       rewrite (Remove_present toFile data) by
         (cbn; (congruence || by rewrite lookup_insert_eq));
       cbn; split; [done |]; split; [by rewrite lookup_delete_eq | done]
     | rewrite (cleanup_one_close _ _ h) by done;
       rewrite (Close_open h) by
         (cbn; (congruence || (rewrite Hn0; apply just_opened)));
       cbn; split; [done |]; split; [by rewrite lookup_insert_eq |];
       intros _; rewrite Hn0; apply just_closed ]).
Qed.

Lemma WriteFile_in_a_run_witness :
  textInput (Str "x") = Some "x" /\ faults blank = []
  /\ (Run None [Insert (Str "x"); WriteFile "/data/godo-temporary-file.txt"] blank).1
     = (File {| ptr := 3; Name := "/data/godo-temporary-file.txt" |}, None)
  /\ disk (Run None [Insert (Str "x"); WriteFile "/data/godo-temporary-file.txt"] blank).2
       !! "/data/godo-temporary-file.txt" = None.
Proof.
  split; [reflexivity |]. split; [reflexivity |].
  destruct (WriteFile_in_a_run None "/data/godo-temporary-file.txt" "x" (Str "x") blank
              eq_refl eq_refl) as (Hr & Hd & _).
  split; [exact Hr | exact Hd].
Defined.

(** X20.  Writing then reading gives the text back: when the environment
    makes nothing fail, the run of [Insert] of a text, [WriteFile file]
    and [ReadFile file] returns that text as bytes, with a nil error, for
    every file name. *)
Theorem WriteFile_then_ReadFile (progress : option writer) (file data : string)
    (v : value) (w : world) :
  textInput v = Some data ->
  faults w = [] ->
  (Run progress [Insert v; WriteFile file; ReadFile file] w).1 = (Bytes data, None).
Proof.
  intros Hin Hf. unfold Run. cbn [ToExecution].
  change (stageInput (Insert v) fresh_run) with Nil. cbn [fn Insert].
  set (w0 := ReportProgress (orDiscard progress) "Inserting value into pipeline" w).
  destruct (ReportProgress_keeps (orDiscard progress) "Inserting value into pipeline" w)
    as (Hd0 & Ho0 & Hf0 & _ & Hn0). fold w0 in Hd0, Ho0, Hf0, Hn0.
  set (h := {| ptr := nextFile w0; Name := file |}).
  set (w1 := withNextFile (S (nextFile w0))
               (withOpened (opened w0 ∪ {[nextFile w0]})
                  (attempt (SysOpen file)
                     (withDisk (<[file := data]> (disk w0))
                        (attempt (SysWriteFile file) w0))))).
  assert (Hstep : forall st, input st = v ->
            fn (WriteFile file) (stageInput (WriteFile file) st) (orDiscard progress) w0
            = ((File h, None), w1)).
  { intros st Hst. change (stageInput (WriteFile file) st) with (input st).
    by rewrite Hst, (WriteFile_stage_ok file data) by (done || congruence). }
  assert (Hread : forall st,
            let r := fn (ReadFile file) (stageInput (ReadFile file) st) (orDiscard progress) w1 in
            r.1 = (Bytes data, None) /\ disk r.2 = disk w1 /\ opened r.2 = opened w1
            /\ faults r.2 = faults w1).
  { intros st. apply ReadFile_stage_ok; subst w1; cbn; [congruence |].
    by rewrite lookup_insert_eq. }
  destruct v; try discriminate Hin; injection Hin as ->;
    cbn [ToExecution]; rewrite Hstep by done;
    (destruct (isTemporary h) eqn:Et; cbn [ToExecution];
     match goal with |- context [fn (ReadFile file) (stageInput (ReadFile file) ?st) _ w1] =>
       destruct (Hread st) as (Hr & Hd2 & Ho2 & Hf2);
       destruct (fn (ReadFile file) (stageInput (ReadFile file) st) (orDiscard progress) w1)
         as [[out e] w2] end;
     cbn [fst snd] in *; injection Hr as -> ->;
     [ rewrite (cleanup_one_removal _ _ h) by done;
       rewrite (Remove_present file data);
         [done | rewrite Hf2; subst w1; cbn; congruence
               | rewrite Hd2; subst w1; cbn; by rewrite lookup_insert_eq]
     | rewrite (cleanup_one_close _ _ h) by done;
       rewrite (Close_open h);
         [done | rewrite Hf2; subst w1; cbn; congruence
               | rewrite Ho2; subst w1 h; cbn; apply just_opened] ]).
Qed.

Lemma WriteFile_then_ReadFile_witness :
  textInput (Str "some content") = Some "some content" /\ faults blank = []
  /\ (Run None [Insert (Str "some content"); WriteFile "/d/something";
                ReadFile "/d/something"] blank).1
     = (Bytes "some content", None).
Proof.
  split; [reflexivity |]. split; [reflexivity |].
  exact (WriteFile_then_ReadFile None "/d/something" "some content" (Str "some content")
           blank eq_refl eq_refl).
Defined.

(** X16.  The stages that write a file accept a string or a byte slice
    and nothing else: on any other input (nil, a file, a marker, ...)
    [WriteFile] and [WriteTempFile] fail with the same error and attempt
    no operation on the file system. *)
Theorem file_writers_reject_other_input (toFile : string) (input : value)
    (progress : option writer) (w : world) :
  textInput input = None ->
  fn (WriteFile toFile) input progress w = ((Nil, Some notText), w)
  /\ fn WriteTempFile input progress w = ((Nil, Some notText), w).
Proof. intros Hin. by destruct input. Qed.

Lemma file_writers_reject_other_input_witness :
  textInput (save "myVar" (Str "hello")) = None
  /\ fn WriteTempFile (save "myVar" (Str "hello")) None blank = ((Nil, Some notText), blank).
Proof.
  split; [reflexivity |].
  exact (proj2 (file_writers_reject_other_input "/data/out" (save "myVar" (Str "hello"))
                  None blank eq_refl)).
Defined.

(** ** Temporary files *)

Lemma slashFree_append (a b : string) :
  slashFree a = true -> slashFree b = true -> slashFree (a +:+ b) = true.
Proof.
  induction a as [|c a IH]; [done |]. rewrite append_cons. cbn.
  intros [Hc Ha]%andb_prop Hb. by rewrite Hc, IH.
Qed.

Lemma digits_slashFree (d : Decimal.uint) : slashFree (NilEmpty.string_of_uint d) = true.
Proof. induction d; cbn; done. Qed.

Lemma number_slashFree (n : nat) :
  slashFree (NilZero.string_of_uint (Nat.to_uint n)) = true.
Proof.
  unfold NilZero.string_of_uint. destruct (Nat.to_uint n) eqn:E; try done;
    rewrite <- E; apply digits_slashFree.
Qed.

Lemma lastElement_slashFree (r : string) : forall seen,
  slashFree r = true -> GoPath.lastElement seen r = seen +:+ r.
Proof.
  induction r as [|c r IH]; intros seen; cbn [GoPath.lastElement slashFree].
  - intros _. by rewrite append_empty_r.
  - intros [Hc Hr]%andb_prop. apply negb_true_iff in Hc. rewrite Hc.
    rewrite IH by done. by rewrite append_assoc.
Qed.

Lemma stripSlashes_slashFree (r : string) :
  slashFree r = true -> GoPath.stripSlashes r = r.
Proof.
  induction r as [|c r IH]; [done |]. cbn [GoPath.stripSlashes slashFree].
  intros [Hc Hr]%andb_prop. apply negb_true_iff in Hc. rewrite IH by done.
  destruct r; [by rewrite Hc | done].
Qed.

Lemma stripSlashes_append (a r : string) :
  slashFree r = true -> r ≠ EmptyString ->
  GoPath.stripSlashes (a +:+ r) = a +:+ r.
Proof.
  intros Hr Hne. induction a as [|c a IH]; [by apply stripSlashes_slashFree |].
  rewrite append_cons. cbn [GoPath.stripSlashes]. rewrite IH.
  destruct (a +:+ r) eqn:E; [| done].
  destruct a; [by destruct r | done].
Qed.

Lemma Base_in_tmp (r : string) :
  slashFree r = true -> r ≠ EmptyString -> GoPath.Base ("/tmp/" +:+ r) = r.
Proof.
  intros Hr Hne.
  assert (Hbase : GoPath.Base ("/tmp/" +:+ r)
                  = match GoPath.lastElement EmptyString (GoPath.stripSlashes ("/tmp/" +:+ r)) with
                    | EmptyString => "/"
                    | e => e
                    end) by reflexivity.
  rewrite Hbase, stripSlashes_append by done.
  assert (Hlast : GoPath.lastElement EmptyString ("/tmp/" +:+ r)
                  = GoPath.lastElement EmptyString r) by reflexivity.
  rewrite Hlast, lastElement_slashFree by done. by destruct r.
Qed.

Lemma tempName_is_temporary (n k : nat) :
  isTemporary {| ptr := k; Name := Ioutil.tempName temporaryFilePrefix n |} = true.
Proof.
  unfold isTemporary, Ioutil.tempName, GoStrings.HasPrefix. cbn [Name].
  rewrite Base_in_tmp.
  - apply prefix_append.
  - apply slashFree_append; [done | apply number_slashFree].
  - done.
Qed.

(** X17.  Every file [WriteTempFile] hands back has a base name that
    starts with the temporary-file prefix, so [Run] tracks it for removal
    and never only for closing. *)
Theorem WriteTempFile_hands_back_a_temporary_file (input : value)
    (progress : option writer) (w w' : world) (f : file) :
  fn WriteTempFile input progress w = ((File f, None), w') ->
  isTemporary f = true.
Proof.
  cbn [fn WriteTempFile]. unfold Ioutil.TempFile.
  set (name := Ioutil.tempName temporaryFilePrefix _).
  assert (Htemp : isTemporary {| ptr := nextFile (attempt (SysTempFile name) w); Name := name |}
                  = true) by apply tempName_is_temporary.
  destruct input; try done;
    (destruct (ioError (SysTempFile name) _); [done |];
     match goal with |- context [Os.Write ?g ?c ?w0] =>
       destruct (Os.Write g c w0) as [[e|] w2]; [done |] end;
     match goal with |- context [Os.Close ?g ?w0] =>
       destruct (Os.Close g w0) as [[e|] w3]; [done |] end;
     by intros [= <- _]).
Qed.

Lemma WriteTempFile_hands_back_a_temporary_file_witness :
  fn WriteTempFile (Str "x") None blank
  = ((File {| ptr := 3; Name := "/tmp/godo-temporary-file3" |}, None),
     (fn WriteTempFile (Str "x") None blank).2)
  /\ isTemporary {| ptr := 3; Name := "/tmp/godo-temporary-file3" |} = true.
Proof.
  assert (H : fn WriteTempFile (Str "x") None blank
              = ((File {| ptr := 3; Name := "/tmp/godo-temporary-file3" |}, None),
                 (fn WriteTempFile (Str "x") None blank).2)) by (by vm_compute).
  split; [exact H |].
  exact (WriteTempFile_hands_back_a_temporary_file (Str "x") None blank _ _ H).
Defined.

Lemma WriteTempFile_stage_ok (data : string) (input : value)
    (progress : option writer) (w : world) :
  textInput input = Some data ->
  faults w = [] ->
  exists f w',
    fn WriteTempFile input progress w = ((File f, None), w')
    /\ isTemporary f = true
    /\ disk w' !! Name f = Some data
    /\ faults w' = []
    /\ journal w' = journal w ++ [SysTempFile (Name f); SysWrite (ptr f); SysClose (ptr f)].
Proof.
  intros Hin Hf. cbn [fn WriteTempFile]. unfold Ioutil.TempFile.
  set (name := Ioutil.tempName temporaryFilePrefix _).
  set (f := {| ptr := nextFile (attempt (SysTempFile name) w); Name := name |}).
  rewrite no_fault by done.
  set (w1 := withNextFile _ _).
  set (w2 := ReportProgress progress ("Created temporary file: " +:+ Name f) w1).
  destruct (ReportProgress_keeps progress ("Created temporary file: " +:+ Name f) w1)
    as (Hd2 & Ho2 & Hf2 & Hj2 & _). fold w2 in Hd2, Ho2, Hf2, Hj2.
  assert (Hopen : ptr f ∈ opened w1) by (subst w1 f; cbn; apply just_opened).
  assert (Hwrite : Os.Write f data w2
                   = (None, withDisk (alter (fun old => old +:+ data) (Name f) (disk w2))
                              (attempt (SysWrite (ptr f)) w2))).
  { unfold Os.Write. rewrite no_fault by (cbn; rewrite Hf2; subst w1; cbn; congruence).
    cbn [opened attempt]. by rewrite bool_decide_eq_true_2 by (by rewrite Ho2). }
  set (w3 := withDisk _ (attempt (SysWrite (ptr f)) w2)) in Hwrite.
  set (w4 := ReportProgress progress "Content written to temporary file." w3).
  destruct (ReportProgress_keeps progress "Content written to temporary file." w3)
    as (Hd4 & Ho4 & Hf4 & Hj4 & _). fold w4 in Hd4, Ho4, Hf4, Hj4.
  assert (Hclose : Os.Close f w4
                   = (None, withOpened (opened w4 ∖ {[ptr f]}) (attempt (SysClose (ptr f)) w4))).
  { apply Close_open.
    - rewrite Hf4. subst w3. cbn. rewrite Hf2. subst w1. cbn. congruence.
    - rewrite Ho4. subst w3. cbn. by rewrite Ho2. }
  exists f, (withOpened (opened w4 ∖ {[ptr f]}) (attempt (SysClose (ptr f)) w4)).
  split.
  { destruct input; try discriminate Hin; injection Hin as ->;
      fold w2; rewrite Hwrite; fold w4; by rewrite Hclose. }
  split; [apply tempName_is_temporary |].
  cbn [disk faults journal withOpened attempt].
  rewrite Hd4, Hf4, Hj4. subst w3. cbn [disk faults journal withDisk attempt].
  rewrite Hd2, Hf2, Hj2. subst w1. cbn [disk faults journal withNextFile withOpened withDisk attempt].
  split; [| split; [done |]].
  - rewrite lookup_alter_eq, lookup_insert_eq. done.
  - by rewrite <- !app_assoc.
Qed.

(** X18.  When the environment makes nothing fail, the run of [Insert] of
    a text and [WriteTempFile] returns the temporary file and a nil error,
    has created, written, closed and removed that file, in this order and
    nothing else, and leaves no file of that name on the disk. *)
Theorem WriteTempFile_in_a_run (progress : option writer) (data : string) (v : value)
    (w : world) :
  textInput v = Some data ->
  faults w = [] ->
  let r := Run progress [Insert v; WriteTempFile] w in
  exists f,
    r.1 = (File f, None)
    /\ isTemporary f = true
    /\ disk r.2 !! Name f = None
    /\ journal r.2 = journal w ++ [SysTempFile (Name f); SysWrite (ptr f);
                                   SysClose (ptr f); SysRemove (Name f)].
Proof.
  intros Hin Hf r. subst r. unfold Run. cbn [ToExecution].
  change (stageInput (Insert v) fresh_run) with Nil. cbn [fn Insert].
  set (w0 := ReportProgress (orDiscard progress) "Inserting value into pipeline" w).
  destruct (ReportProgress_keeps (orDiscard progress) "Inserting value into pipeline" w)
    as (_ & _ & Hf0 & Hj0 & _). fold w0 in Hf0, Hj0.
  destruct (WriteTempFile_stage_ok data v (orDiscard progress) w0 Hin ltac:(congruence))
    as (f & w1 & Hcall & Htemp & Hd1 & Hf1 & Hj1).
  exists f.
  assert (Hstep : forall st, input st = v ->
            fn WriteTempFile (stageInput WriteTempFile st) (orDiscard progress) w0
            = ((File f, None), w1)).
  { intros st Hst. change (stageInput WriteTempFile st) with (input st). by rewrite Hst. }
  destruct v; try discriminate Hin;
    cbn [ToExecution]; rewrite Hstep by done; rewrite Htemp; cbn [ToExecution];
    rewrite (cleanup_one_removal _ _ f) by done;
    rewrite (Remove_present (Name f) data) by done;
    cbn; (split; [done |]); (split; [done |]);
    (split; [by rewrite lookup_delete_eq |]);
    by rewrite Hj1, Hj0, <- app_assoc.
Qed.

Lemma WriteTempFile_in_a_run_witness :
  textInput (Bytes "x") = Some "x" /\ faults blank = []
  /\ exists f,
       (Run None [Insert (Bytes "x"); WriteTempFile] blank).1 = (File f, None)
       /\ isTemporary f = true
       /\ disk (Run None [Insert (Bytes "x"); WriteTempFile] blank).2 !! Name f = None
       /\ journal (Run None [Insert (Bytes "x"); WriteTempFile] blank).2
          = journal blank ++ [SysTempFile (Name f); SysWrite (ptr f);
                              SysClose (ptr f); SysRemove (Name f)].
Proof.
  split; [reflexivity |]. split; [reflexivity |].
  exact (WriteTempFile_in_a_run None "x" (Bytes "x") blank eq_refl eq_refl).
Defined.
